(** * AIND-Recognizer: model selectors and recognizer

    A shallow embedding of [my_model_selectors.py] and [my_recognizer.py].

    Modelling conventions.
    - A Python [float] holding a log-likelihood is an exact rational
      ([Q]); the two sentinels [float("inf")] and [float("-inf")] are
      separate constructors of [pyfloat].  Rounding, overflow and NaN are
      outside the model: a score that succeeds yields a real number.
    - A Python [int] is a [Z]; a list position or a [len] is a [nat].
    - A [dict] is an association list in insertion order (iteration order
      of a Python dict), with [dict_get] / [dict_set] as [d[k]] and
      [d[k] = v].
    - An exception is a value of [exn]; code that may raise lives in the
      error monad [res].  A bare [except:] catches every [Raise].
    - [hmmlearn]'s [GaussianHMM] is the interface [ModelTrainer];
      [math.log] is a parameter [ln]. *)

From Stdlib Require Import ZArith QArith List Bool Lia Lqa Arith PeanoNat.
From Stdlib Require String.
Import ListNotations.
Import String.StringSyntax.
Delimit Scope string_scope with string.
Definition string : Set := String.string.

Local Open Scope Z_scope.

(** ** Exceptions and the error monad *)

Inductive exn : Type :=
| FitFailure | ScoreFailure
| AttributeError | ValueError | ZeroDivisionError
| UnboundLocalError | KeyError | IndexError.

Inductive res (A : Type) : Type :=
| Ok (a : A)
| Raise (e : exn).
Arguments Ok {A} a.
Arguments Raise {A} e.

Definition bind {A B} (c : res A) (k : A -> res B) : res B :=
  match c with
  | Ok a => k a
  | Raise e => Raise e
  end.

Notation "x <- c ;; k" := (bind c (fun x => k))
  (at level 61, c at next level, right associativity).
Notation "' p <- c ;; k" := (bind c (fun x => match x with p => k end))
  (at level 61, p pattern, c at next level, right associativity).

(** [for x in xs: s = body(s, x)], stopping at the first exception. *)
Fixpoint for_each {S B} (body : S -> B -> res S) (xs : list B) (s : S) : res S :=
  match xs with
  | [] => Ok s
  | x :: xs' => s' <- body s x ;; for_each body xs' s'
  end.

(** [try: s = body(s) / except: continue] as one loop iteration. *)
Definition try_continue {S} (s : S) (body : res S) : S :=
  match body with
  | Ok s' => s'
  | Raise _ => s
  end.

(** Reading a local variable that may not have been assigned yet. *)
Definition read_local {A} (v : option A) : res A :=
  match v with
  | Some a => Ok a
  | None => Raise UnboundLocalError
  end.

(** ** Python floats *)

Inductive pyfloat : Type :=
| NegInf
| Real (q : Q)
| PosInf.

Definition Qltb (a b : Q) : bool := negb (Qle_bool b a).

(** [a < b] on floats. *)
Definition flt (a b : pyfloat) : bool :=
  match a, b with
  | NegInf, NegInf => false
  | NegInf, _ => true
  | Real _, NegInf => false
  | Real x, Real y => Qltb x y
  | Real _, PosInf => true
  | PosInf, _ => false
  end.

(** [a > b] on floats. *)
Definition fgt (a b : pyfloat) : bool := flt b a.

(** ** Dictionaries *)

Section Dict.
Context {V : Type}.

Definition dict := list (string * V).

Fixpoint dict_get (d : dict) (k : string) : res V :=
  match d with
  | [] => Raise KeyError
  | (k', v) :: d' => if String.eqb k k' then Ok v else dict_get d' k
  end.

Fixpoint dict_set (d : dict) (k : string) (v : V) : dict :=
  match d with
  | [] => [(k, v)]
  | (k', v') :: d' =>
      if String.eqb k k' then (k', v) :: d' else (k', v') :: dict_set d' k v
  end.

Definition dict_keys (d : dict) : list string := map fst d.
Definition dict_items (d : dict) : list (string * V) := d.
End Dict.
Arguments dict V : clear implicits.

(** ** The data model *)

Definition frame := list Q.
Definition sequence := list frame.
(** The pair [(X, lengths)]: stacked observations and per-sequence frame counts. *)
Definition Xlengths := (list frame * list Z)%type.

(** [sum(lengths)] *)
Definition sum (l : list Z) : Z := fold_left Z.add l 0.
(** [sum] of a list of floats *)
Definition fsum (l : list Q) : Q := fold_left Qplus l 0%Q.

(** ** The external trainer *)

Class ModelTrainer (hmm : Type) : Type := {
  (** [GaussianHMM(n_components, "diag", n_iter=1000, random_state).fit(X, lengths)] *)
  fit : Z -> Z -> list frame -> list Z -> res hmm;
  (** [model.score(X, lengths)] *)
  score : hmm -> list frame -> list Z -> res Q;
  n_features : hmm -> Z;
  n_components : hmm -> Z
}.

(** ** my_recognizer.py *)

Section Recognizer.
Context {hmm : Type} `{ModelTrainer hmm}.

(** The local variables of [recognize] that the inner loop reads and
    writes.  [logL] is a local of the whole function: it survives from
    one word to the next and from one test sequence to the next, and is
    unbound until a score succeeds. *)
Record locals : Type := {
  probability : dict pyfloat;
  select_logL : pyfloat;
  guess : option string;
  logL : option Q
}.

(** One iteration of [for word, model in models.items()]. *)
Definition recognize_pair (Xl : Xlengths) (st : locals) (item : string * hmm)
  : res locals :=
  let '(word, model) := item in
  let st1 :=
    match score model (fst Xl) (snd Xl) with
    | Ok l =>
        {| probability := dict_set (probability st) word (Real l);
           select_logL := select_logL st;
           guess := guess st;
           logL := Some l |}
    | Raise _ =>
        {| probability := dict_set (probability st) word NegInf;
           select_logL := select_logL st;
           guess := guess st;
           logL := logL st |}
    end in
  l <- read_local (logL st1) ;;
  if fgt (Real l) (select_logL st1)
  then Ok {| probability := probability st1;
             select_logL := Real l;
             guess := Some word;
             logL := logL st1 |}
  else Ok st1.

(** The body of [for (X, lengths) in test_set.get_all_Xlengths().values()];
    [logL0] is the value of the local [logL] on entry. *)
Definition recognize_sequence (models : dict hmm) (logL0 : option Q) (Xl : Xlengths)
  : res locals :=
  for_each (recognize_pair Xl) (dict_items models)
    {| probability := []; select_logL := NegInf; guess := None; logL := logL0 |}.

Definition recognize_outer (models : dict hmm)
    (acc : list (dict pyfloat) * list (option string) * option Q) (Xl : Xlengths)
  : res (list (dict pyfloat) * list (option string) * option Q) :=
  let '(probabilities, guesses, logL0) := acc in
  st <- recognize_sequence models logL0 Xl ;;
  Ok (probabilities ++ [probability st], guesses ++ [guess st], logL st).

(** [recognize(models, test_set)]; the test set is given as the list
    [test_set.get_all_Xlengths().values()]. *)
Definition recognize (models : dict hmm) (test_set : list Xlengths)
  : res (list (dict pyfloat) * list (option string)) :=
  '(probabilities, guesses, _) <-
     for_each (recognize_outer models) test_set ([], [], None) ;;
  Ok (probabilities, guesses).
End Recognizer.

(** ** my_model_selectors.py *)

(** [range(a, b)] *)
Definition range (a b : Z) : list Z :=
  map (fun i => a + Z.of_nat i) (seq 0 (Z.to_nat (b - a))).

(** A list comprehension whose element expression may raise. *)
Fixpoint map_res {A B} (f : A -> res B) (xs : list A) : res (list B) :=
  match xs with
  | [] => Ok []
  | x :: xs' => y <- f x ;; ys <- map_res f xs' ;; Ok (y :: ys)
  end.

(** [s / n] where [n] is a [len]: Python raises on a zero divisor (the
    dividend is then the integer [sum([]) = 0]). *)
Definition py_div (s : Q) (n : nat) : res Q :=
  match n with
  | O => Raise ZeroDivisionError
  | S _ => Ok (s / inject_Z (Z.of_nat n))%Q
  end.

(** [np.mean] of a non-empty list of floats. *)
Definition mean (l : list Q) : Q := (fsum l / inject_Z (Z.of_nat (length l)))%Q.

(** Modelled from the spec: [asl_utils.combine_sequences] is not under
    src/.  It builds the ConcatenatedObservations of the sequences at the
    given positions: the stacked frames and one length per sequence. *)
Definition combine_sequences (split_index_list : list nat) (sequences : list sequence)
  : res Xlengths :=
  sequences_fold <-
    map_res (fun idx => match nth_error sequences idx with
                        | Some s => Ok s
                        | None => Raise IndexError
                        end) split_index_list ;;
  Ok (concat sequences_fold, map (fun s => Z.of_nat (length s)) sequences_fold).

(** *** The cross-validation splitter

    Modelled from the spec: the CrossValidationSplitter is sklearn's
    [KFold], not under src/.  It is the conventional k-fold splitter
    without shuffling: [n_splits] consecutive blocks of the positions
    [0 .. n_samples-1], the first [n_samples mod n_splits] blocks one
    element longer; a fold trains on the positions outside its block, in
    order. *)

(** Modelled from the spec: [KFold(n_splits=k)]; the constructor rejects
    fewer than two splits, which [SelectorCV.select] reaches only for a
    word without any sequence. *)
Definition KFold (n_splits : nat) : res nat :=
  if (n_splits <? 2)%nat then Raise ValueError else Ok n_splits.

Definition fold_sizes (n_splits n_samples : nat) : list nat :=
  map (fun i => if (i <? n_samples mod n_splits)%nat
                then (n_samples / n_splits + 1)%nat
                else (n_samples / n_splits)%nat)
      (seq 0 n_splits).

Fixpoint test_folds (sizes : list nat) (current : nat) : list (list nat) :=
  match sizes with
  | [] => []
  | fold_size :: rest => seq current fold_size :: test_folds rest (current + fold_size)
  end.

Definition mem (i : nat) (l : list nat) : bool := existsb (Nat.eqb i) l.

(** Modelled from the spec: [split_method.split(sequences)] as the list
    of [(train_index, test_index)] pairs it yields; more splits than
    samples is an error. *)
Definition KFold_split (n_splits n_samples : nat) : res (list (list nat * list nat)) :=
  if (n_samples <? n_splits)%nat then Raise ValueError
  else
    let indices := seq 0 n_samples in
    Ok (map (fun test_index =>
               (filter (fun i => negb (mem i test_index)) indices, test_index))
            (test_folds (fold_sizes n_splits n_samples) 0)).

Section Selectors.
Context {hmm : Type} `{ModelTrainer hmm}.
(** [math.log] on a positive integer *)
Variable ln : Z -> Q.

Definition math_log (x : Z) : res Q :=
  if x <=? 0 then Raise ValueError else Ok (ln x).

Record ModelSelector : Type := {
  words : dict (list sequence);
  hwords : dict Xlengths;
  sequences : list sequence;
  X : list frame;
  lengths : list Z;
  this_word : string;
  n_constant : Z;
  min_n_components : Z;
  max_n_components : Z;
  random_state : Z;
  verbose : bool
}.

(** [ModelSelector.__init__] *)
Definition ModelSelector_init
    (all_word_sequences : dict (list sequence)) (all_word_Xlengths : dict Xlengths)
    (this_word : string) (n_constant min_n_components max_n_components random_state : Z)
    (verbose : bool) : res ModelSelector :=
  sequences <- dict_get all_word_sequences this_word ;;
  Xl <- dict_get all_word_Xlengths this_word ;;
  Ok {| words := all_word_sequences;
        hwords := all_word_Xlengths;
        sequences := sequences;
        X := fst Xl;
        lengths := snd Xl;
        this_word := this_word;
        n_constant := n_constant;
        min_n_components := min_n_components;
        max_n_components := max_n_components;
        random_state := random_state;
        verbose := verbose |}.

(** [base_model]: the fitted model, or Python's [None] when the fit raises. *)
Definition base_model (self : ModelSelector) (num_states : Z) : option hmm :=
  match fit num_states (random_state self) (X self) (lengths self) with
  | Ok hmm_model => Some hmm_model
  | Raise _ => None
  end.

(** [model.score(X, lengths)] and [model.n_features] on a value that may
    be [None]. *)
Definition score_of (model : option hmm) (X : list frame) (lengths : list Z) : res Q :=
  match model with
  | Some m => score m X lengths
  | None => Raise AttributeError
  end.

Definition n_features_of (model : option hmm) : res Z :=
  match model with
  | Some m => Ok (n_features m)
  | None => Raise AttributeError
  end.

(** The inclusive candidate range of every searching strategy. *)
Definition candidates (self : ModelSelector) : list Z :=
  range (min_n_components self) (max_n_components self + 1).

(** *** SelectorConstant *)
Definition SelectorConstant_select (self : ModelSelector) : res (option hmm) :=
  let best_num_components := n_constant self in
  Ok (base_model self best_num_components).

(** *** SelectorBIC *)

(** The statements of the [try] block up to the comparison. *)
Definition bic_candidate (self : ModelSelector) (n_components : Z)
  : res (Q * option hmm) :=
  let model := base_model self n_components in
  logL <- score_of model (X self) (lengths self) ;;
  d <- n_features_of model ;;
  let p := n_components ^ 2 + 2 * n_components * d - 1 in
  logN <- math_log (sum (lengths self)) ;;
  let bic := ((- 2 # 1) * logL + inject_Z p * logN)%Q in
  Ok (bic, model).

Definition SelectorBIC_step (self : ModelSelector)
    (st : pyfloat * option hmm) (n_components : Z) : pyfloat * option hmm :=
  try_continue st
    ('(bic, model) <- bic_candidate self n_components ;;
     if flt (Real bic) (fst st) then Ok (Real bic, model) else Ok st).

Definition SelectorBIC_select (self : ModelSelector) : res (option hmm) :=
  let '(select_bic, select_model) :=
    fold_left (SelectorBIC_step self) (candidates self) (PosInf, None) in
  Ok select_model.

(** *** SelectorDIC *)

Definition dic_candidate (self : ModelSelector) (n_components : Z)
  : res (Q * option hmm) :=
  let model := base_model self n_components in
  logL <- score_of model (X self) (lengths self) ;;
  other_words <-
    map_res (fun word => dict_get (hwords self) word)
            (filter (fun word => negb (String.eqb word (this_word self)))
                    (dict_keys (hwords self))) ;;
  anti_logsL <-
    map_res (fun '(X, length) => score_of model X length) other_words ;;
  q <- py_div (fsum anti_logsL) (length other_words) ;;
  let dic := (logL - q)%Q in
  Ok (dic, model).

Definition SelectorDIC_step (self : ModelSelector)
    (st : pyfloat * option hmm) (n_components : Z) : pyfloat * option hmm :=
  try_continue st
    ('(dic, model) <- dic_candidate self n_components ;;
     if fgt (Real dic) (fst st) then Ok (Real dic, model) else Ok st).

Definition SelectorDIC_select (self : ModelSelector) : res (option hmm) :=
  let '(select_dic, select_model) :=
    fold_left (SelectorDIC_step self) (candidates self) (NegInf, None) in
  Ok select_model.

(** *** SelectorCV *)

(** What one candidate's sampling leaves behind: the list [logsL], the
    local variable [model] (unbound, or bound to [None] or to a model)
    and, as a ghost, the folds the iteration went through. *)
Record cv_locals : Type := {
  logsL : list Q;
  model : option (option hmm);
  folds_done : list (list nat * list nat)
}.

(** One iteration of [for train_index, test_index in split_method.split(...)];
    an exception leaves the assignments made before it in place. *)
Definition cv_fold (self : ModelSelector) (n_components : Z)
    (st : cv_locals) (fold : list nat * list nat) : cv_locals :=
  let '(train_index, test_index) := fold in
  let st0 := {| logsL := logsL st; model := model st;
                folds_done := folds_done st ++ [fold] |} in
  match combine_sequences train_index (sequences self) with
  | Raise _ => st0
  | Ok (training_X, training_lengths) =>
    match combine_sequences test_index (sequences self) with
    | Raise _ => st0
    | Ok (test_X, test_lengths) =>
      match fit n_components (random_state self) training_X training_lengths with
      | Raise _ => st0
      | Ok m =>
        match score m test_X test_lengths with
        | Raise _ =>
            {| logsL := logsL st; model := Some (Some m);
               folds_done := folds_done st0 |}
        | Ok logL =>
            {| logsL := logsL st ++ [logL]; model := Some (Some m);
               folds_done := folds_done st0 |}
        end
      end
    end
  end.

(** The sampling part of one candidate: everything between
    [logsL = []] and [if not logsL].  The [continue] of the
    one-sequence branch leaves [logsL] empty, so the test that follows
    skips the candidate all the same. *)
Definition cv_samples (self : ModelSelector) (n_components : Z)
    (model0 : option (option hmm)) : res cv_locals :=
  if (length (sequences self) =? 1)%nat then
    let model1 := base_model self n_components in
    match score_of model1 (X self) (lengths self) with
    | Ok logL => Ok {| logsL := [logL]; model := Some model1; folds_done := [] |}
    | Raise _ => Ok {| logsL := []; model := Some model1; folds_done := [] |}
    end
  else
    split_method <- KFold (Nat.min (length (sequences self)) 3) ;;
    folds <- KFold_split split_method (length (sequences self)) ;;
    Ok (fold_left (cv_fold self n_components) folds
          {| logsL := []; model := model0; folds_done := [] |}).

Definition SelectorCV_step (self : ModelSelector)
    (st : pyfloat * option hmm * option (option hmm)) (n_components : Z)
  : res (pyfloat * option hmm * option (option hmm)) :=
  let '(select_avg_logL, select_model, model0) := st in
  s <- cv_samples self n_components model0 ;;
  match logsL s with
  | [] => Ok (select_avg_logL, select_model, model s)
  | _ :: _ =>
      let avg_logL := mean (logsL s) in
      if fgt (Real avg_logL) select_avg_logL
      then m <- read_local (model s) ;; Ok (Real avg_logL, m, model s)
      else Ok (select_avg_logL, select_model, model s)
  end.

Definition SelectorCV_select (self : ModelSelector) : res (option hmm) :=
  '(select_avg_logL, select_model, _) <-
     for_each (SelectorCV_step self) (candidates self) (NegInf, None, None) ;;
  Ok select_model.
End Selectors.

(** ** A table-driven trainer for the examples

    A toy model records the state count and the [lengths] it was fitted
    with, and scores a data set by looking its [lengths] up in a table. *)

Record toy : Type := {
  toy_n : Z;
  toy_d : Z;
  toy_data : list Z;
  toy_table : list (list Z * Q)
}.

Definition lengths_eqb (a b : list Z) : bool :=
  if list_eq_dec Z.eq_dec a b then true else false.

Fixpoint lookup_score (t : list (list Z * Q)) (l : list Z) : res Q :=
  match t with
  | [] => Raise ScoreFailure
  | (k, v) :: t' => if lengths_eqb k l then Ok v else lookup_score t' l
  end.

Definition toy_trainer (toy_fit : Z -> list Z -> res toy) : ModelTrainer toy :=
  {| fit := fun n _ _ lengths => toy_fit n lengths;
     score := fun m _ lengths => lookup_score (toy_table m) lengths;
     n_features := toy_d;
     n_components := toy_n |}.

(** ** Vocabulary of the specifications *)

(** The running-best reduction shared by the selectors: a candidate that
    raised is [None]; [cmp new old] decides whether [new] replaces [old]. *)
Section Scan.
Context {B : Type}.
Variable cmp : pyfloat -> pyfloat -> bool.

Definition keep_best (st : pyfloat * B) (c : option (Q * B)) : pyfloat * B :=
  match c with
  | Some (v, b) => if cmp (Real v) (fst st) then (Real v, b) else st
  | None => st
  end.

Definition scan (cands : list (option (Q * B))) (st : pyfloat * B) : pyfloat * B :=
  fold_left keep_best cands st.
End Scan.

(** [(v, b)] is the first best of [cands] for the strict order [R]:
    strictly better than every earlier candidate, and no later one is
    strictly better. *)
Definition first_best {B} (R : Q -> Q -> Prop) (cands : list (option (Q * B)))
    (v : Q) (b : B) : Prop :=
  exists pre post,
    cands = pre ++ Some (v, b) :: post /\
    Forall (fun c => forall w b', c = Some (w, b') -> R v w) pre /\
    Forall (fun c => forall w b', c = Some (w, b') -> ~ R w v) post.

Definition to_option {A} (r : res A) : option A :=
  match r with
  | Ok a => Some a
  | Raise _ => None
  end.

Section RecognizerSpec.
Context {hmm : Type} `{ModelTrainer hmm}.

(** The value [recognize] records for a model on a test sequence. *)
Definition entry (Xl : Xlengths) (m : hmm) : pyfloat :=
  match score m (fst Xl) (snd Xl) with
  | Ok l => Real l
  | Raise _ => NegInf
  end.

(** The ProbabilityRow of a test sequence. *)
Definition row_of (models : dict hmm) (Xl : Xlengths) : dict pyfloat :=
  map (fun item => (fst item, entry Xl (snd item))) models.

(** The first (word, model) pair of the mapping scores the sequence. *)
Definition first_scores (models : dict hmm) (Xl : Xlengths) : Prop :=
  exists w m l rest,
    models = (w, m) :: rest /\ score m (fst Xl) (snd Xl) = Ok l.
End RecognizerSpec.

(** [w] is the first key of [row] whose value is the maximum of the row. *)
Definition first_max_at (row : dict pyfloat) (w : string) (v : pyfloat) : Prop :=
  exists pre post,
    row = pre ++ (w, v) :: post /\
    Forall (fun e => flt (snd e) v = true) pre /\
    Forall (fun e => flt v (snd e) = false) post.

Definition first_max (row : dict pyfloat) (w : string) : Prop :=
  exists v, first_max_at row w v.


(** ** Example inputs: the recognizer *)

Definition no_fit : Z -> list Z -> res toy := fun _ _ => Raise FitFailure.

(** Two word models.  [model_A] scores only the one-frame sequence;
    [model_B] scores the one-frame and the two-frame sequence. *)
Definition model_A : toy :=
  {| toy_n := 2; toy_d := 1; toy_data := [4];
     toy_table := [([1], (-5 # 1)%Q)] |}.
Definition model_B : toy :=
  {| toy_n := 2; toy_d := 1; toy_data := [4];
     toy_table := [([1], (-3 # 1)%Q); ([2], (-10 # 1)%Q)] |}.
Definition model_C : toy :=
  {| toy_n := 3; toy_d := 1; toy_data := [4];
     toy_table := [([1], (-4 # 1)%Q); ([2], (-10 # 1)%Q)] |}.

Definition models_AB : dict toy := [("A"%string, model_A); ("B"%string, model_B)].
Definition models_BAC : dict toy :=
  [("B"%string, model_B); ("A"%string, model_A); ("C"%string, model_C)].

Definition seq_1 : Xlengths := ([[0%Q]], [1]).
Definition seq_2 : Xlengths := ([[0%Q]; [1%Q]], [2]).
Definition seq_3 : Xlengths := ([[0%Q]; [1%Q]; [2%Q]], [3]).

Section SelectorSpec.
Context {hmm : Type} `{ModelTrainer hmm}.
Variable ln : Z -> Q.

(** A candidate of the BIC / DIC search as the reduction sees it. *)
Definition bic_cand (self : ModelSelector) (n : Z) : option (Q * option hmm) :=
  to_option (bic_candidate ln self n).

Definition dic_cand (self : ModelSelector) (n : Z) : option (Q * option hmm) :=
  to_option (dic_candidate self n).

(** The fit and the scoring of candidate [n] on the word's own
    observations both succeed. *)
Definition fits_and_scores (self : ModelSelector) (n : Z) (m : hmm) (logL : Q) : Prop :=
  fit n (random_state self) (X self) (lengths self) = Ok m /\
  score m (X self) (lengths self) = Ok logL.

(** The observations of the other words of the vocabulary, in iteration
    order. *)
Definition other_words (self : ModelSelector) : list Xlengths :=
  map snd (filter (fun e => negb (String.eqb (fst e) (this_word self))) (hwords self)).

(** Candidate [n] fits, scores its own word and scores every other word. *)
Definition dic_succeeds (self : ModelSelector) (n : Z) (m : hmm) (logL : Q)
    (anti_logsL : list Q) : Prop :=
  fits_and_scores self n m logL /\
  Forall2 (fun Xl a => score m (fst Xl) (snd Xl) = Ok a) (other_words self) anti_logsL.
End SelectorSpec.

Section CVSpec.
Context {hmm : Type} `{ModelTrainer hmm}.
Variable self : ModelSelector.
Variable n_components : Z.

(** The model a fold's iteration assigns to [model]: both data sets are
    built and the fit returns. *)
Definition fold_fit (fold : list nat * list nat) : option hmm :=
  match combine_sequences (fst fold) (sequences self) with
  | Raise _ => None
  | Ok (training_X, training_lengths) =>
      match combine_sequences (snd fold) (sequences self) with
      | Raise _ => None
      | Ok _ => to_option (fit n_components (random_state self) training_X training_lengths)
      end
  end.

(** The log-likelihood a fold's iteration appends: the fitted model
    scores the held-out data. *)
Definition fold_sample (fold : list nat * list nat) : option Q :=
  match combine_sequences (fst fold) (sequences self) with
  | Raise _ => None
  | Ok (training_X, training_lengths) =>
      match combine_sequences (snd fold) (sequences self) with
      | Raise _ => None
      | Ok (test_X, test_lengths) =>
          match fit n_components (random_state self) training_X training_lengths with
          | Raise _ => None
          | Ok m => to_option (score m test_X test_lengths)
          end
      end
  end.

Definition fold_samples (folds : list (list nat * list nat)) : list Q :=
  flat_map (fun f => match fold_sample f with Some l => [l] | None => [] end) folds.

Definition last_fit (folds : list (list nat * list nat)) (model0 : option (option hmm))
  : option (option hmm) :=
  fold_left (fun acc f => match fold_fit f with
                          | Some m => Some (Some m)
                          | None => acc
                          end) folds model0.

(** A candidate of the cross-validation search as the reduction sees it:
    the mean of its samples and the value of [model], when it has a
    sample. *)
Definition cv_cand : option (Q * option hmm) :=
  match cv_samples self n_components None with
  | Ok s =>
      match logsL s, model s with
      | _ :: _, Some mo => Some (mean (logsL s), mo)
      | _, _ => None
      end
  | Raise _ => None
  end.
End CVSpec.

(** ** Example inputs: the selectors

    Three words: A with three sequences of 5, 6 and 4 frames, B with two
    sequences of 7 and 5 frames, C with one sequence of 7 frames.  The toy
    fit fails for four states; a model with [n] states scores a data set
    with total length [N] at [-100 (n-3)^2 - N]. *)

Definition ln_ex (x : Z) : Q := inject_Z (Z.log2 x).

Definition mk_seq (k : nat) : sequence := repeat [0%Q] k.

Definition score_table (n : Z) : list (list Z * Q) :=
  map (fun l => (l, inject_Z (- (100 * (n - 3) ^ 2) - sum l)))
      [[5; 6; 4]; [7; 5]; [7]; [5]; [6]; [4]; [6; 4]; [5; 4]; [5; 6]].

(** The model the toy fit returns for [n] states on data with the given
    [lengths]. *)
Definition toy_model (n : Z) (lengths : list Z) : toy :=
  {| toy_n := n; toy_d := 1; toy_data := lengths; toy_table := score_table n |}.

Definition fit_ex (n : Z) (lengths : list Z) : res toy :=
  if n =? 4 then Raise FitFailure else Ok (toy_model n lengths).

(** The same trainer, except that the fit also fails on the training
    data of the last fold of word A. *)
Definition fit_ex_last_fails (n : Z) (lengths : list Z) : res toy :=
  if lengths_eqb lengths [5; 6] then Raise FitFailure else fit_ex n lengths.

Definition seqs_A : list sequence := [mk_seq 5; mk_seq 6; mk_seq 4].
Definition seqs_B : list sequence := [mk_seq 7; mk_seq 5].
Definition seqs_C : list sequence := [mk_seq 7].

Definition Xl_of (sequences : list sequence) : Xlengths :=
  (concat sequences, map (fun s => Z.of_nat (length s)) sequences).

Definition corpus_sequences : dict (list sequence) :=
  [("A"%string, seqs_A); ("B"%string, seqs_B); ("C"%string, seqs_C)].
Definition corpus_Xlengths : dict Xlengths :=
  [("A"%string, Xl_of seqs_A); ("B"%string, Xl_of seqs_B); ("C"%string, Xl_of seqs_C)].

(** The selector of a word over the corpus, searching 2..5 states, with
    [n_constant = 7]. *)
Definition selector_for (sequences : dict (list sequence)) (Xlengths : dict Xlengths)
    (word : string) (own : list sequence) : ModelSelector :=
  {| words := sequences;
     hwords := Xlengths;
     sequences := own;
     X := fst (Xl_of own);
     lengths := snd (Xl_of own);
     this_word := word;
     n_constant := 7;
     min_n_components := 2;
     max_n_components := 5;
     random_state := 14;
     verbose := false |}.

Definition self_A : ModelSelector :=
  selector_for corpus_sequences corpus_Xlengths "A"%string seqs_A.
Definition self_C : ModelSelector :=
  selector_for corpus_sequences corpus_Xlengths "C"%string seqs_C.
(** Word C alone in its vocabulary. *)
Definition self_C_alone : ModelSelector :=
  selector_for [("C"%string, seqs_C)] [("C"%string, Xl_of seqs_C)] "C"%string seqs_C.

(** Word A with its search range set to [lo .. hi]. *)
Definition self_A_range (lo hi : Z) : ModelSelector :=
  {| words := corpus_sequences;
     hwords := corpus_Xlengths;
     sequences := seqs_A;
     X := fst (Xl_of seqs_A);
     lengths := snd (Xl_of seqs_A);
     this_word := "A"%string;
     n_constant := 7;
     min_n_components := lo;
     max_n_components := hi;
     random_state := 14;
     verbose := false |}.

(** A word D without any sequence or frame, beside word A. *)
Definition self_D : ModelSelector :=
  selector_for (("D"%string, []) :: corpus_sequences)
               (("D"%string, Xl_of []) :: corpus_Xlengths) "D"%string [].

(** A trainer that fits and scores whatever it is given. *)
Definition fit_any (n : Z) (lengths : list Z) : res toy :=
  Ok {| toy_n := n; toy_d := 1; toy_data := lengths;
        toy_table := [(lengths, (-1 # 1)%Q)] |}.

(** * Verification *)

(** ** Comparisons *)

Lemma Qltb_lt (x y : Q) : Qltb x y = true <-> (x < y)%Q.
Proof.
  unfold Qltb. rewrite negb_true_iff. split; intro Hxy.
  - apply Qnot_le_lt. intro Hle. apply Qle_bool_iff in Hle. congruence.
  - destruct (Qle_bool y x) eqn:E; [|reflexivity].
    apply Qle_bool_iff in E. exfalso. exact (Qlt_not_le _ _ Hxy E).
Qed.


Lemma fgt_real (x y : Q) : fgt (Real x) (Real y) = true <-> (y < x)%Q.
Proof. apply Qltb_lt. Qed.

Lemma flt_real (x y : Q) : flt (Real x) (Real y) = true <-> (x < y)%Q.
Proof. apply Qltb_lt. Qed.

(** ** The running-best reduction *)

Section ScanSpec.
Context {B : Type}.
Variable cmp : pyfloat -> pyfloat -> bool.
Variable init : pyfloat.
Variable R : Q -> Q -> Prop.
Hypothesis cmp_real : forall x y, cmp (Real x) (Real y) = true <-> R x y.
Hypothesis cmp_init : forall x, cmp (Real x) init = true.
Hypothesis R_trans : forall x y z, R x y -> R y z -> R x z.
Hypothesis R_neg : forall x y z, R x y -> ~ R z y -> R x z.

Lemma scan_snoc (l : list (option (Q * B))) c st :
  scan cmp (l ++ [c]) st = keep_best cmp (scan cmp l st) c.
Proof. unfold scan. now rewrite fold_left_app. Qed.

Lemma scan_spec (b0 : B) (cands : list (option (Q * B))) :
  (scan cmp cands (init, b0) = (init, b0) /\ Forall (fun c => c = None) cands)
  \/ (exists v b, scan cmp cands (init, b0) = (Real v, b) /\ first_best R cands v b).
Proof.
  induction cands as [|c l IH] using rev_ind.
  - left. split; [reflexivity | constructor].
  - rewrite scan_snoc. destruct c as [[w b']|].
    + right. destruct IH as [[E Hall] | (v & b & E & pre & post & Hl & Hpre & Hpost)];
        rewrite E; cbn [keep_best fst].
      * rewrite cmp_init. exists w, b'. split; [reflexivity|].
        exists l, []. split; [reflexivity|]. split; [|constructor].
        eapply Forall_impl; [|exact Hall]. intros c -> ? ? ?. discriminate.
      * destruct (cmp (Real w) (Real v)) eqn:Ecmp.
        -- apply cmp_real in Ecmp. exists w, b'. split; [reflexivity|].
           exists l, []. split; [reflexivity|]. split; [|constructor].
           subst l. apply Forall_app. split.
           ++ eapply Forall_impl; [|exact Hpre]. cbv beta.
              intros c Hc u b1 ->. eapply R_trans; [exact Ecmp|]. eapply Hc; reflexivity.
           ++ constructor.
              ** intros u b1 [= <- <-]. exact Ecmp.
              ** eapply Forall_impl; [|exact Hpost]. cbv beta.
                 intros c Hc u b1 ->. eapply R_neg; [exact Ecmp|]. eapply Hc; reflexivity.
        -- exists v, b. split; [reflexivity|].
           exists pre, (post ++ [Some (w, b')]). subst l. split.
           ++ now rewrite <- app_assoc.
           ++ split; [exact Hpre|]. apply Forall_app. split; [exact Hpost|].
              constructor; [|constructor]. intros u b1 [= <- <-] HR.
              apply cmp_real in HR. congruence.
    + destruct IH as [[E Hall] | (v & b & E & pre & post & Hl & Hpre & Hpost)];
        rewrite E; cbn [keep_best].
      * left. split; [reflexivity|]. apply Forall_app. split; [exact Hall|].
        constructor; [reflexivity | constructor].
      * right. exists v, b. split; [reflexivity|].
        exists pre, (post ++ [None]). subst l. split.
        -- now rewrite <- app_assoc.
        -- split; [exact Hpre|]. apply Forall_app. split; [exact Hpost|].
           constructor; [|constructor]. intros; discriminate.
Qed.
End ScanSpec.

(** ** Ranges *)

Lemma range_In (a b n : Z) : In n (range a b) <-> a <= n < b.
Proof.
  unfold range. rewrite in_map_iff. split.
  - intros (i & <- & Hi). apply in_seq in Hi. lia.
  - intros Hn. exists (Z.to_nat (n - a)). split; [lia|]. apply in_seq. lia.
Qed.

Lemma range_split_aux (a : Z) (k : nat) (r1 r2 : list Z) (n : Z) (s : nat) :
  map (fun i => a + Z.of_nat i) (seq s k) = r1 ++ n :: r2 ->
  (forall x, In x r1 -> x < n) /\ (forall x, In x r2 -> n < x).
Proof.
  revert s r1. induction k as [|k IH]; intros s r1 E.
  - destruct r1; discriminate.
  - cbn [seq map] in E. destruct r1 as [|y r1].
    + cbn in E. injection E as E1 E2. split; [intros ? []|].
      intros x Hx. rewrite <- E2 in Hx. apply in_map_iff in Hx.
      destruct Hx as (i & <- & Hi). apply in_seq in Hi. lia.
    + cbn in E. injection E as E1 E2. destruct (IH _ _ E2) as [H1 H2].
      split; [|exact H2]. intros x [<- | Hx]; [|now apply H1].
      assert (Hn : In n (map (fun i => a + Z.of_nat i) (seq (S s) k))).
      { rewrite E2. apply in_elt. }
      apply in_map_iff in Hn. destruct Hn as (i & <- & Hi). apply in_seq in Hi. lia.
Qed.

Lemma range_split (a b : Z) (r1 r2 : list Z) (n : Z) :
  range a b = r1 ++ n :: r2 ->
  (forall x, In x r1 -> x < n) /\ (forall x, In x r2 -> n < x).
Proof. apply range_split_aux. Qed.

Lemma range_locate (a b n : Z) :
  a <= n < b -> exists r1 r2, range a b = r1 ++ n :: r2.
Proof. intros Hn. apply in_split. now apply range_In. Qed.

(** ** The error monad and dictionaries *)

Lemma bind_Ok {A B} (c : res A) (k : A -> res B) (b : B) :
  bind c k = Ok b -> exists a, c = Ok a /\ k a = Ok b.
Proof. destruct c as [a|e]; cbn; [eauto | discriminate]. Qed.

Lemma for_each_app {S B} (body : S -> B -> res S) (xs ys : list B) (s : S) :
  for_each body (xs ++ ys) s = (s' <- for_each body xs s ;; for_each body ys s').
Proof.
  revert s. induction xs as [|x xs IH]; intros s; cbn; [reflexivity|].
  destruct (body s x); cbn; [apply IH | reflexivity].
Qed.

Lemma dict_set_fresh {V} (d : dict V) (k : string) (v : V) :
  ~ In k (dict_keys d) -> dict_set d k v = d ++ [(k, v)].
Proof.
  induction d as [|[k' v'] d IH]; cbn; intros Hk; [reflexivity|].
  destruct (String.eqb k k') eqn:E.
  - apply String.eqb_eq in E. exfalso. apply Hk. now left.
  - f_equal. apply IH. intros Hin. apply Hk. now right.
Qed.

(** ** The order on floats *)



(** ** The recognizer *)

Section RecognizerProofs.
Context {hmm : Type} `{ModelTrainer hmm}.
Variable Xl : Xlengths.

Lemma row_of_snoc (done : dict hmm) (item : string * hmm) :
  row_of (done ++ [item]) Xl = row_of done Xl ++ [(fst item, entry Xl (snd item))].
Proof. unfold row_of. now rewrite map_app. Qed.

Lemma row_of_keys (done : dict hmm) : dict_keys (row_of done Xl) = dict_keys done.
Proof. unfold dict_keys, row_of. rewrite map_map. reflexivity. Qed.




(** Once [logL] is bound the inner loop cannot raise, and [logL] stays bound. *)
Lemma recognize_pairs_bound (items : dict hmm) (st : locals) :
  logL st <> None ->
  exists st', for_each (recognize_pair Xl) items st = Ok st' /\ logL st' <> None.
Proof.
  revert st. induction items as [|[word m] items IH]; intros st Hl.
  - exists st. split; [reflexivity | exact Hl].
  - cbn [for_each]. unfold recognize_pair at 1.
    destruct (logL st) as [l|] eqn:El; [|congruence].
    destruct (score m (fst Xl) (snd Xl)) as [l'|e];
      cbn [logL select_logL probability guess read_local bind]; rewrite ?El;
      cbn [read_local bind];
      match goal with |- context [if ?c then _ else _] => destruct c end;
      cbn [bind]; apply IH; cbn [logL]; congruence.
Qed.
End RecognizerProofs.

Section RecognizeProofs.
Context {hmm : Type} `{ModelTrainer hmm}.
Variable models : dict hmm.
Hypothesis models_nodup : NoDup (dict_keys models).


(** Once [logL] is bound, the outer loop returns. *)
Lemma recognize_outer_bound (tests : list Xlengths) :
  forall ps gs l0, l0 <> None ->
    exists ps' gs' l', for_each (recognize_outer models) tests (ps, gs, l0) = Ok (ps', gs', l').
Proof.
  induction tests as [|Xl tests IH]; intros ps gs l0 Hl0.
  - now exists ps, gs, l0.
  - cbn [for_each]. unfold recognize_outer at 1. unfold recognize_sequence.
    destruct (recognize_pairs_bound Xl (dict_items models)
                {| probability := []; select_logL := NegInf; guess := None; logL := l0 |} Hl0)
      as (st & E & Hl).
    rewrite E. cbn [bind]. apply IH. exact Hl.
Qed.

End RecognizeProofs.

(** ** What [recognize] gets right, and when it raises *)

Section RecognizeRows.
Context {hmm : Type} `{ModelTrainer hmm}.

Lemma recognize_pair_row (Xl : Xlengths) (st st' : locals) (item : string * hmm) :
  recognize_pair Xl st item = Ok st' ->
  probability st' = dict_set (probability st) (fst item) (entry Xl (snd item)).
Proof.
  destruct item as [word m]. unfold recognize_pair, entry. cbn [fst snd].
  destruct (score m (fst Xl) (snd Xl)) as [l|e]; cbn [logL select_logL probability guess].
  - cbn [read_local bind].
    destruct (fgt (Real l) (select_logL st)); intros [= <-]; reflexivity.
  - destruct (logL st) as [l|]; cbn [read_local bind]; [|discriminate].
    destruct (fgt (Real l) (select_logL st)); intros [= <-]; reflexivity.
Qed.

(** Whenever the inner loop returns, the row holds one entry per model,
    in iteration order: the score, or [-inf] where scoring raised. *)
Lemma recognize_pairs_rows (Xl : Xlengths) (items done : dict hmm) (st st' : locals) :
  probability st = row_of done Xl ->
  NoDup (dict_keys (done ++ items)) ->
  for_each (recognize_pair Xl) items st = Ok st' ->
  probability st' = row_of (done ++ items) Xl.
Proof.
  revert done st. induction items as [|item items IH]; intros done st Hrow Hnd E.
  - cbn in E. injection E as <-. now rewrite app_nil_r.
  - cbn [for_each] in E. apply bind_Ok in E. destruct E as (st1 & E1 & E).
    replace (done ++ item :: items) with ((done ++ [item]) ++ items) in *
      by now rewrite <- app_assoc.
    apply (IH (done ++ [item]) st1); [|exact Hnd|exact E].
    rewrite (recognize_pair_row _ _ _ _ E1), Hrow, row_of_snoc.
    apply dict_set_fresh. rewrite row_of_keys.
    unfold dict_keys in *. rewrite !map_app in Hnd. cbn [map] in Hnd.
    rewrite <- app_assoc in Hnd. cbn [app] in Hnd.
    apply NoDup_remove_2 in Hnd. intros Hin. apply Hnd. apply in_or_app. now left.
Qed.

Lemma recognize_outer_rows (models : dict hmm) (tests : list Xlengths) :
  NoDup (dict_keys models) ->
  forall ps gs l0 ps' gs' l',
    for_each (recognize_outer models) tests (ps, gs, l0) = Ok (ps', gs', l') ->
    ps' = ps ++ map (row_of models) tests /\
    length gs' = (length gs + length tests)%nat.
Proof.
  intros Hnd. induction tests as [|Xl tests IH]; intros ps gs l0 ps' gs' l' E.
  - cbn in E. injection E as <- <- <-. rewrite app_nil_r. cbn. split; [reflexivity | lia].
  - cbn [for_each] in E. apply bind_Ok in E. destruct E as ([[ps1 gs1] l1] & E1 & E2).
    unfold recognize_outer in E1. apply bind_Ok in E1. destruct E1 as (st & Est & E1).
    injection E1 as <- <- <-.
    destruct (IH _ _ _ _ _ _ E2) as (-> & Hlen).
    unfold recognize_sequence, dict_items in Est.
    apply (recognize_pairs_rows Xl models []) in Est; [|reflexivity|exact Hnd].
    cbn [app] in Est.
    rewrite Est, <- app_assoc. cbn [app map]. split; [reflexivity|].
    rewrite Hlen, length_app. cbn. lia.
Qed.

(** Whenever [recognize] returns: one row and one guess per test
    sequence, in corpus order, each row with one entry per model. *)
Lemma recognize_rows (models : dict hmm) (tests : list Xlengths)
    (probs : list (dict pyfloat)) (guesses : list (option string)) :
  NoDup (dict_keys models) ->
  recognize models tests = Ok (probs, guesses) ->
  probs = map (row_of models) tests /\
  length guesses = length tests /\
  Forall (fun row => length row = length models) probs.
Proof.
  intros Hnd E. unfold recognize in E.
  apply bind_Ok in E. destruct E as ([[ps gs] l] & E & Eret). injection Eret as <- <-.
  apply (recognize_outer_rows models tests Hnd) in E. destruct E as (-> & Hlen).
  cbn [app length] in *. split; [reflexivity|]. split; [exact Hlen|].
  apply Forall_forall. intros row Hrow. apply in_map_iff in Hrow.
  destruct Hrow as (Xl & <- & _). unfold row_of. apply length_map.
Qed.

(** With no model every row is empty and every guess is none. *)
Lemma recognize_no_models (tests : list Xlengths) :
  recognize (@nil (string * hmm)) tests
  = Ok (map (fun _ => []) tests, map (fun _ => None) tests).
Proof.
  unfold recognize.
  assert (Hloop : forall ps gs l0,
             for_each (recognize_outer (@nil (string * hmm))) tests (ps, gs, l0)
             = Ok (ps ++ map (fun _ => []) tests, gs ++ map (fun _ => None) tests, l0)).
  { induction tests as [|Xl tests IH]; intros ps gs l0.
    - cbn. now rewrite !app_nil_r.
    - cbn [for_each recognize_outer recognize_sequence dict_items bind
           probability guess logL map].
      rewrite IH, <- !app_assoc. reflexivity. }
  rewrite Hloop. reflexivity.
Qed.

(** The first score of the run raising is fatal: [logL] is read unbound. *)
Lemma recognize_first_failure (w : string) (m : hmm) (rest : dict hmm)
    (Xl : Xlengths) (more : list Xlengths) (e : exn) :
  score m (fst Xl) (snd Xl) = Raise e ->
  recognize ((w, m) :: rest) (Xl :: more) = Raise UnboundLocalError.
Proof.
  intros Hraise. unfold recognize. cbn [for_each].
  unfold recognize_outer at 1. unfold recognize_sequence, dict_items. cbn [for_each].
  unfold recognize_pair at 1. rewrite Hraise. reflexivity.
Qed.
End RecognizeRows.


(** C2 (failing input).  Models A and B over two test sequences: both
    score the first; on the second A raises and B scores -10.  The row of
    the second sequence is {A: -inf, B: -10}, whose first maximum is B,
    but the guess returned is A: the comparison after A's failure used
    the -3 left in [logL] by the first sequence. *)
Theorem recognize_guess_not_row_maximum :
  recognize (H := toy_trainer no_fit) models_AB [seq_1; seq_2]
  = Ok ([[("A"%string, Real (-5 # 1)); ("B"%string, Real (-3 # 1))];
         [("A"%string, NegInf); ("B"%string, Real (-10 # 1))]],
        [Some "B"%string; Some "A"%string])
  /\ first_max [("A"%string, NegInf); ("B"%string, Real (-10 # 1))] "B"%string
  /\ ~ first_max [("A"%string, NegInf); ("B"%string, Real (-10 # 1))] "A"%string.
Proof.
  split; [vm_compute; reflexivity|]. split.
  - exists (Real (-10 # 1)), [("A"%string, NegInf)], []. repeat split; repeat constructor.
  - intros (v & pre & post & E & Hpre & Hpost).
    destruct pre as [|e0 pre].
    + cbn in E. inversion E; subst. inversion Hpost as [|? ? Hb _]. discriminate.
    + cbn in E. inversion E; subst. destruct pre as [|e1 pre].
      * cbn in *. discriminate.
      * cbn in *. destruct pre; discriminate.
Qed.

(** C3 (failing input).  The first pair scored on the first test
    sequence raises: [probability[word]] is set to -inf, then the
    comparison reads the unbound local [logL] and [recognize] raises. *)
Theorem recognize_raises_on_first_failure :
  recognize (H := toy_trainer no_fit) models_AB [seq_2; seq_1] = Raise UnboundLocalError.
Proof. vm_compute. reflexivity. Qed.

(** C6 (failing input).  After a scoring failure the comparison reads the
    stale [logL]: entered with [logL = -3] and a running best of -inf, the
    iteration for a word whose score raises records -inf for the word and
    yet makes it the guess with running best -3.  Over a corpus: when no
    model scores the second sequence, its guess is A and not none. *)
Theorem recognize_pair_compares_stale_logL :
  recognize_pair (H := toy_trainer no_fit) seq_3
    {| probability := []; select_logL := NegInf; guess := None; logL := Some (-3 # 1)%Q |}
    ("A"%string, model_A)
  = Ok {| probability := [("A"%string, NegInf)]; select_logL := Real (-3 # 1);
          guess := Some "A"%string; logL := Some (-3 # 1)%Q |}
  /\ recognize (H := toy_trainer no_fit) models_AB [seq_1; seq_3]
     = Ok ([[("A"%string, Real (-5 # 1)); ("B"%string, Real (-3 # 1))];
            [("A"%string, NegInf); ("B"%string, NegInf)]],
           [Some "B"%string; Some "A"%string]).
Proof. split; vm_compute; reflexivity. Qed.

(** ** Reductions over a candidate range *)

Section ScanRange.
Context {B : Type}.
Variable R : Q -> Q -> Prop.
Hypothesis R_irrefl : forall x, ~ R x x.
Hypothesis R_trans : forall x y z, R x y -> R y z -> R x z.
Variable cand : Z -> option (Q * B).

Lemma first_best_range (a b : Z) (v : Q) (x : B) :
  first_best R (map cand (range a b)) v x ->
  exists n, a <= n < b /\ cand n = Some (v, x) /\
    forall n' v' x', a <= n' < b -> cand n' = Some (v', x') ->
      ~ R v' v /\ (n' < n -> R v v').
Proof.
  intros (pre & post & E & Hpre & Hpost).
  apply map_eq_app in E. destruct E as (r1 & r2' & Er & <- & E2).
  apply map_eq_cons in E2. destruct E2 as (n & r2 & -> & En & <-).
  destruct (range_split _ _ _ _ _ Er) as [Hlt Hgt].
  assert (Hn : a <= n < b) by (apply range_In; rewrite Er; apply in_elt).
  exists n. split; [exact Hn|]. split; [exact En|].
  intros n' v' x' Hn' En'. apply range_In in Hn'. rewrite Er in Hn'.
  rewrite Forall_forall in Hpre, Hpost.
  apply in_app_or in Hn'. destruct Hn' as [Hin | [<- | Hin]].
  - assert (HR : R v v').
    { eapply (Hpre (cand n')); [apply in_map; exact Hin | exact En']. }
    split; [|intros _; exact HR]. intros HR'. exact (R_irrefl _ (R_trans _ _ _ HR HR')).
  - rewrite En in En'. injection En' as <- <-. split; [apply R_irrefl | lia].
  - split.
    + eapply (Hpost (cand n')); [apply in_map; exact Hin | exact En'].
    + intros Hlt'. specialize (Hgt _ Hin). lia.
Qed.

End ScanRange.

Lemma Qlt_not_lt_trans (x y z : Q) : (x < y)%Q -> ~ (z < y)%Q -> (x < z)%Q.
Proof. intros Hxy Hzy. apply Qnot_lt_le in Hzy. eapply Qlt_le_trans; eassumption. Qed.

Lemma Qgt_not_gt_trans (x y z : Q) : (y < x)%Q -> ~ (y < z)%Q -> (z < x)%Q.
Proof. intros Hxy Hzy. apply Qnot_lt_le in Hzy. eapply Qle_lt_trans; eassumption. Qed.

(** A minimising reduction from [+inf] with [<]. *)
Lemma scan_min_spec {B} (b0 : B) (cands : list (option (Q * B))) :
  (scan flt cands (PosInf, b0) = (PosInf, b0) /\ Forall (fun c => c = None) cands)
  \/ (exists v b, scan flt cands (PosInf, b0) = (Real v, b) /\ first_best Qlt cands v b).
Proof.
  apply scan_spec.
  - apply flt_real.
  - reflexivity.
  - apply Qlt_trans.
  - apply Qlt_not_lt_trans.
Qed.

(** A maximising reduction from [-inf] with [>]. *)
Lemma scan_max_spec {B} (b0 : B) (cands : list (option (Q * B))) :
  (scan fgt cands (NegInf, b0) = (NegInf, b0) /\ Forall (fun c => c = None) cands)
  \/ (exists v b, scan fgt cands (NegInf, b0) = (Real v, b)
                  /\ first_best (fun x y => (y < x)%Q) cands v b).
Proof.
  apply scan_spec.
  - apply fgt_real.
  - reflexivity.
  - intros x y z Hxy Hyz. eapply Qlt_trans; eassumption.
  - intros x y z. apply Qgt_not_gt_trans.
Qed.

(** ** SelectorBIC *)

Section BICProofs.
Context {hmm : Type} `{ModelTrainer hmm}.
Variable ln : Z -> Q.
Variable self : ModelSelector.

Lemma SelectorBIC_fold (l : list Z) (st : pyfloat * option hmm) :
  fold_left (SelectorBIC_step ln self) l st = scan flt (map (bic_cand ln self) l) st.
Proof.
  unfold scan. revert st. induction l as [|n l IH]; intros st; [reflexivity|].
  cbn [fold_left map]. rewrite IH. f_equal.
  unfold SelectorBIC_step, bic_cand, keep_best.
  destruct (bic_candidate ln self n) as [[bic model]|e];
    cbn [bind to_option try_continue]; [|reflexivity].
  destruct (flt (Real bic) (fst st)); reflexivity.
Qed.

Lemma bic_candidate_inv (n : Z) (v : Q) (mo : option hmm) :
  bic_candidate ln self n = Ok (v, mo) ->
  exists m logL,
    fits_and_scores self n m logL /\ mo = Some m /\
    v = ((- 2 # 1) * logL
         + inject_Z (n ^ 2 + 2 * n * n_features m - 1) * ln (sum (lengths self)))%Q.
Proof.
  unfold bic_candidate, base_model, fits_and_scores, math_log.
  destruct (fit n (random_state self) (X self) (lengths self)) as [m|e]; cbn; [|discriminate].
  destruct (score m (X self) (lengths self)) as [logL|e] eqn:Es; cbn; [|discriminate].
  destruct (sum (lengths self) <=? 0); cbn; [discriminate|].
  intros [= <- <-]. exists m, logL. repeat split. exact Es.
Qed.

Lemma bic_candidate_Ok (n : Z) (m : hmm) (logL : Q) :
  0 < sum (lengths self) -> fits_and_scores self n m logL ->
  bic_candidate ln self n
  = Ok (((- 2 # 1) * logL
         + inject_Z (n ^ 2 + 2 * n * n_features m - 1) * ln (sum (lengths self)))%Q,
        Some m).
Proof.
  intros Hpos [Hfit Hscore]. unfold bic_candidate, base_model, math_log.
  rewrite Hfit. cbn. rewrite Hscore. cbn.
  destruct (Z.leb_spec (sum (lengths self)) 0); [lia | reflexivity].
Qed.

End BICProofs.

(** ** Comprehensions and dictionary lookups *)

Lemma dict_get_In {V} (d : dict V) (k : string) (v : V) :
  NoDup (dict_keys d) -> In (k, v) d -> dict_get d k = Ok v.
Proof.
  induction d as [|[k' v'] d IH]; cbn; intros Hnd Hin; [contradiction|].
  inversion Hnd as [|? ? Hk' Hnd']; subst.
  destruct Hin as [[= -> ->] | Hin].
  - now rewrite String.eqb_refl.
  - destruct (String.eqb k k') eqn:E; [|now apply IH].
    apply String.eqb_eq in E. subst k'. exfalso. apply Hk'.
    change k with (fst (k, v)). now apply in_map.
Qed.

Lemma dict_get_Ok_In {V} (d : dict V) (k : string) (v : V) :
  dict_get d k = Ok v -> In k (dict_keys d).
Proof.
  induction d as [|[k' v'] d IH]; cbn; [discriminate|].
  destruct (String.eqb k k') eqn:E.
  - apply String.eqb_eq in E. now left.
  - intros Hget. right. now apply IH.
Qed.

Lemma map_res_ext {A B} (f g : A -> res B) (l : list A) :
  (forall x, In x l -> f x = g x) -> map_res f l = map_res g l.
Proof.
  induction l as [|x l IH]; intros Hfg; [reflexivity|].
  cbn. rewrite (Hfg x (or_introl eq_refl)). destruct (g x); cbn; [|reflexivity].
  rewrite IH; [reflexivity|]. intros y Hy. apply Hfg. now right.
Qed.

Lemma map_res_Forall2 {A B} (f : A -> res B) (l : list A) (r : list B) :
  map_res f l = Ok r <-> Forall2 (fun x y => f x = Ok y) l r.
Proof.
  revert r. induction l as [|x l IH]; intros r; cbn.
  - split.
    + intros [= <-]. constructor.
    + intros Hf. inversion Hf. reflexivity.
  - split.
    + intros E. apply bind_Ok in E. destruct E as (y & Ey & E).
      apply bind_Ok in E. destruct E as (ys & Eys & [= <-]).
      constructor; [exact Ey | now apply IH].
    + intros Hf. inversion Hf as [|? y ? ys Ey Hys]; subst.
      rewrite Ey. cbn. apply IH in Hys. rewrite Hys. reflexivity.
Qed.

Lemma Forall2_fun {A B} (P : A -> B -> Prop) (l : list A) (r r' : list B) :
  (forall x y y', P x y -> P x y' -> y = y') ->
  Forall2 P l r -> Forall2 P l r' -> r = r'.
Proof.
  intros Hfun Hr. revert r'. induction Hr as [|x y l r Hxy _ IH]; intros r' Hr'.
  - now inversion Hr'.
  - inversion Hr' as [|? y' ? r'' Hxy' Hr'']; subst. f_equal; [eapply Hfun; eassumption | now apply IH].
Qed.

Lemma comprehension_over_keys {V} (d l : dict V) (p : string -> bool) :
  NoDup (dict_keys d) -> incl l d ->
  map_res (fun word => dict_get d word) (filter p (dict_keys l))
  = Ok (map snd (filter (fun e => p (fst e)) l)).
Proof.
  intros Hnd. induction l as [|[k v] l IH]; intros Hincl; [reflexivity|].
  assert (Hincl' : incl l d) by (intros x Hx; apply Hincl; now right).
  cbn [dict_keys map filter fst]. fold (dict_keys l). destruct (p k).
  - cbn [map_res]. rewrite (dict_get_In d k v Hnd (Hincl _ (or_introl eq_refl))).
    cbn [bind]. rewrite (IH Hincl'). reflexivity.
  - apply IH, Hincl'.
Qed.


(** ** SelectorDIC *)

Section DICProofs.
Context {hmm : Type} `{ModelTrainer hmm}.
Variable self : ModelSelector.

Lemma SelectorDIC_fold (l : list Z) (st : pyfloat * option hmm) :
  fold_left (SelectorDIC_step self) l st = scan fgt (map (dic_cand self) l) st.
Proof.
  unfold scan. revert st. induction l as [|n l IH]; intros st; [reflexivity|].
  cbn [fold_left map]. rewrite IH. f_equal.
  unfold SelectorDIC_step, dic_cand, keep_best.
  destruct (dic_candidate self n) as [[dic model]|e];
    cbn [bind to_option try_continue]; [|reflexivity].
  destruct (fgt (Real dic) (fst st)); reflexivity.
Qed.

Lemma other_words_comprehension :
  NoDup (dict_keys (hwords self)) ->
  map_res (fun word => dict_get (hwords self) word)
          (filter (fun word => negb (String.eqb word (this_word self)))
                  (dict_keys (hwords self)))
  = Ok (other_words self).
Proof.
  intros Hnd. unfold other_words.
  apply (comprehension_over_keys (hwords self) (hwords self)
           (fun word => negb (String.eqb word (this_word self))) Hnd).
  apply incl_refl.
Qed.

Lemma anti_logsL_comprehension (model : option hmm) (l : list Xlengths) :
  map_res (fun '(X, length) => score_of model X length) l
  = map_res (fun Xl => score_of model (fst Xl) (snd Xl)) l.
Proof. apply map_res_ext. intros [X0 l0] _. reflexivity. Qed.

Hypothesis hwords_nodup : NoDup (dict_keys (hwords self)).

Lemma dic_candidate_inv (n : Z) (v : Q) (mo : option hmm) :
  dic_candidate self n = Ok (v, mo) ->
  exists m logL anti,
    dic_succeeds self n m logL anti /\ mo = Some m /\ other_words self <> [] /\
    v = (logL - fsum anti / inject_Z (Z.of_nat (length (other_words self))))%Q.
Proof.
  unfold dic_candidate, base_model, dic_succeeds, fits_and_scores.
  rewrite other_words_comprehension by exact hwords_nodup.
  destruct (fit n (random_state self) (X self) (lengths self)) as [m|e];
    [|cbn; discriminate].
  change (score_of (Some m) (X self) (lengths self)) with (score m (X self) (lengths self)).
  destruct (score m (X self) (lengths self)) as [logL|e] eqn:Es; cbn [bind]; [|discriminate].
  rewrite anti_logsL_comprehension.
  destruct (map_res (fun Xl => score_of (Some m) (fst Xl) (snd Xl)) (other_words self))
    as [anti|e] eqn:Ea; cbn [bind]; [|discriminate].
  destruct (other_words self) as [|o os] eqn:Eo; cbn [py_div length bind]; [discriminate|].
  intros [= <- <-]. exists m, logL, anti.
  split; [|split; [reflexivity | split; [discriminate | reflexivity]]].
  split; [split; [reflexivity | exact Es]|]. now apply map_res_Forall2.
Qed.




Lemma dic_succeeds_fun (n : Z) (m m' : hmm) (logL logL' : Q) (anti anti' : list Q) :
  dic_succeeds self n m logL anti -> dic_succeeds self n m' logL' anti' ->
  m = m' /\ logL = logL' /\ anti = anti'.
Proof.
  intros [[Hfit Hscore] Hanti] [[Hfit' Hscore'] Hanti'].
  assert (m = m') by congruence. subst m'.
  split; [reflexivity|]. split; [congruence|].
  eapply Forall2_fun; [|exact Hanti|exact Hanti']. cbv beta. intros; congruence.
Qed.
End DICProofs.


Lemma Qgt_irrefl (x : Q) : ~ (x < x)%Q.
Proof. apply Qlt_irrefl. Qed.

Lemma Qgt_trans (x y z : Q) : (y < x)%Q -> (z < y)%Q -> (z < x)%Q.
Proof. intros Hxy Hyz. eapply Qlt_trans; eassumption. Qed.


(** C10. In a vocabulary that holds only the word itself,
    [SelectorDIC.select] returns none and does not raise: for every
    candidate the [try] block raises (at the latest on the division by the
    zero count of other words) and the candidate is skipped. *)
Theorem SelectorDIC_select_single_word {hmm : Type} `{ModelTrainer hmm}
    (self : ModelSelector) :
  dict_keys (hwords self) = [this_word self] ->
  SelectorDIC_select self = Ok None.
Proof.
  intros Hkeys.
  assert (Hnd : NoDup (dict_keys (hwords self))).
  { rewrite Hkeys. constructor; [intros [] | constructor]. }
  assert (Hnone : other_words self = []).
  { unfold other_words. destruct (hwords self) as [|[k v] [|e d]]; try discriminate.
    cbn in Hkeys. injection Hkeys as ->. cbn. now rewrite String.eqb_refl. }
  unfold SelectorDIC_select, candidates. rewrite SelectorDIC_fold.
  destruct (scan_max_spec (@None hmm)
              (map (dic_cand self)
                   (range (min_n_components self) (max_n_components self + 1))))
    as [[E _] | (v & mo & E & Hbest)]; rewrite E; [reflexivity|].
  exfalso.
  apply (first_best_range (fun x y => (y < x)%Q) Qgt_irrefl Qgt_trans) in Hbest.
  destruct Hbest as (n & _ & En & _). unfold dic_cand in En.
  destruct (dic_candidate self n) as [[v0 mo0]|e] eqn:Ec; [|discriminate].
  destruct (dic_candidate_inv self Hnd _ _ _ Ec) as (_ & _ & _ & _ & _ & Hne & _).
  exact (Hne Hnone).
Qed.

(** ** KFold *)

Lemma mem_In (i : nat) (l : list nat) : mem i l = true <-> In i l.
Proof.
  unfold mem. rewrite existsb_exists. split.
  - intros (x & Hx & E). apply Nat.eqb_eq in E. now subst.
  - intros Hi. exists i. split; [exact Hi | apply Nat.eqb_refl].
Qed.

Lemma test_folds_length (sizes : list nat) (current : nat) :
  length (test_folds sizes current) = length sizes.
Proof.
  revert current. induction sizes as [|s sizes IH]; intros current; cbn; [reflexivity|].
  now rewrite IH.
Qed.

Lemma test_folds_concat (sizes : list nat) (current : nat) :
  concat (test_folds sizes current) = seq current (list_sum sizes).
Proof.
  revert current. induction sizes as [|s sizes IH]; intros current; cbn; [reflexivity|].
  rewrite IH. symmetry. apply seq_app.
Qed.

Lemma test_folds_nonempty (sizes : list nat) (current : nat) :
  Forall (fun s => (1 <= s)%nat) sizes ->
  Forall (fun t => t <> []) (test_folds sizes current).
Proof.
  intros Hs. revert current. induction Hs as [|s sizes Hs _ IH]; intros current; cbn;
    constructor; [|apply IH].
  destruct s; [lia | discriminate].
Qed.

Lemma fold_sizes_length (k n : nat) : length (fold_sizes k n) = k.
Proof. unfold fold_sizes. now rewrite length_map, length_seq. Qed.

Lemma list_sum_steps (q r k : nat) :
  list_sum (map (fun i => if (i <? r)%nat then (q + 1)%nat else q) (seq 0 k))
  = (k * q + Nat.min k r)%nat.
Proof.
  induction k as [|k IH]; [reflexivity|].
  rewrite seq_S, map_app, list_sum_app, IH. cbn [map Nat.add].
  unfold list_sum. cbn [fold_right].
  destruct (Nat.ltb_spec k r); lia.
Qed.

Lemma fold_sizes_sum (k n : nat) : (0 < k)%nat -> list_sum (fold_sizes k n) = n.
Proof.
  intros Hk. unfold fold_sizes. rewrite list_sum_steps.
  pose proof (Nat.mod_upper_bound n k ltac:(lia)) as Hr.
  pose proof (Nat.div_mod_eq n k) as Hdm. lia.
Qed.

Lemma fold_sizes_pos (k n : nat) :
  (0 < k)%nat -> (k <= n)%nat -> Forall (fun s => (1 <= s)%nat) (fold_sizes k n).
Proof.
  intros Hk Hkn. unfold fold_sizes. apply Forall_forall. intros s Hs.
  apply in_map_iff in Hs. destruct Hs as (i & <- & _).
  assert (1 <= n / k)%nat by (apply Nat.div_le_lower_bound; lia).
  destruct (i <? n mod k)%nat; lia.
Qed.

Lemma exactly_one_block (i : nat) (ls : list (list nat)) :
  NoDup (concat ls) -> In i (concat ls) ->
  length (filter (mem i) ls) = 1%nat.
Proof.
  induction ls as [|l ls IH]; cbn [concat]; intros Hnd Hin; [contradiction|].
  assert (Hnd' : NoDup (concat ls)) by (eapply NoDup_app_remove_l; exact Hnd).
  cbn [filter]. destruct (mem i l) eqn:E.
  - cbn [length]. f_equal. apply mem_In in E.
    assert (Hnot : ~ In i (concat ls)).
    { intros Hc. apply in_split in E. destruct E as (l1 & l2 & ->).
      rewrite <- app_assoc in Hnd. cbn in Hnd. apply NoDup_remove_2 in Hnd.
      apply Hnd. apply in_or_app. right. apply in_or_app. now right. }
    clear -Hnot. induction ls as [|l' ls IH]; [reflexivity|].
    cbn [concat] in Hnot. cbn [filter]. destruct (mem i l') eqn:E'.
    + apply mem_In in E'. exfalso. apply Hnot. apply in_or_app. now left.
    + apply IH. intros Hc. apply Hnot. apply in_or_app. now right.
  - apply IH; [exact Hnd'|]. apply in_app_or in Hin. destruct Hin as [Hl | Hc]; [|exact Hc].
    apply mem_In in Hl. congruence.
Qed.

Lemma filter_length_lt {A} (f : A -> bool) (l : list A) (x : A) :
  In x l -> f x = false -> (length (filter f l) < length l)%nat.
Proof.
  induction l as [|y l IH]; cbn [In filter length]; intros Hin Hf; [contradiction|].
  pose proof (filter_length_le f l) as Hle.
  destruct Hin as [-> | Hin].
  - rewrite Hf. lia.
  - specialize (IH Hin Hf). destruct (f y); cbn [length]; lia.
Qed.

(** The folds of a non-shuffled [KFold(k).split] over [n >= k] samples. *)
Lemma KFold_split_spec (k n : nat) :
  (0 < k)%nat -> (k <= n)%nat ->
  exists folds,
    KFold_split k n = Ok folds /\
    length folds = k /\
    concat (map snd folds) = seq 0 n /\
    (forall i, (i < n)%nat -> length (filter (fun f => mem i (snd f)) folds) = 1%nat) /\
    Forall (fun f => fst f = filter (fun i => negb (mem i (snd f))) (seq 0 n)
                     /\ snd f <> []
                     /\ (length (fst f) < n)%nat) folds.
Proof.
  intros Hk Hkn. unfold KFold_split.
  destruct (Nat.ltb_spec n k); [lia|].
  eexists. split; [reflexivity|].
  set (tests := test_folds (fold_sizes k n) 0).
  assert (Hsnd : forall g : list nat -> list nat,
             map snd (map (fun t => (g t, t)) tests) = tests).
  { intros g. rewrite map_map. cbn. apply map_id. }
  assert (Hconcat : concat tests = seq 0 n).
  { unfold tests. rewrite test_folds_concat, fold_sizes_sum by exact Hk. reflexivity. }
  split; [|split; [|split]].
  - unfold tests. now rewrite length_map, test_folds_length, fold_sizes_length.
  - rewrite Hsnd. exact Hconcat.
  - intros i Hi.
    pose proof (exactly_one_block i tests) as Hone.
    rewrite Hconcat in Hone. specialize (Hone (seq_NoDup n 0) ltac:(apply in_seq; lia)).
    rewrite <- Hone. clear. induction tests as [|t ts IH]; [reflexivity|].
    cbn [map filter snd]. destruct (mem i t); cbn [length]; now rewrite IH.
  - apply Forall_forall. intros f Hf. apply in_map_iff in Hf.
    destruct Hf as (t & <- & Ht). cbn [fst snd].
    assert (Hne : t <> []).
    { pose proof (test_folds_nonempty (fold_sizes k n) 0 (fold_sizes_pos k n Hk Hkn)) as Hall.
      rewrite Forall_forall in Hall. now apply Hall. }
    split; [reflexivity|]. split; [exact Hne|].
    destruct t as [|i t]; [congruence|].
    assert (Hi : In i (seq 0 n)).
    { rewrite <- Hconcat. apply in_concat. exists (i :: t). split; [exact Ht | now left]. }
    pose proof (filter_length_lt (fun j => negb (mem j (i :: t))) (seq 0 n) i Hi) as Hlt.
    rewrite length_seq in Hlt. apply Hlt. apply negb_false_iff, mem_In. now left.
Qed.

(** ** SelectorCV *)

Section CVProofs.
Context {hmm : Type} `{ModelTrainer hmm}.
Variable self : ModelSelector.

Lemma cv_fold_spec (n : Z) (st : cv_locals) (fold : list nat * list nat) :
  cv_fold self n st fold
  = {| logsL := logsL st ++ match fold_sample self n fold with Some l => [l] | None => [] end;
       model := match fold_fit self n fold with Some m => Some (Some m) | None => model st end;
       folds_done := folds_done st ++ [fold] |}.
Proof.
  unfold cv_fold, fold_sample, fold_fit. destruct fold as [train_index test_index].
  cbn [fst snd].
  destruct (combine_sequences train_index (sequences self)) as [[trX trL]|e];
    [|now rewrite app_nil_r].
  destruct (combine_sequences test_index (sequences self)) as [[teX teL]|e];
    [|now rewrite app_nil_r].
  destruct (fit n (random_state self) trX trL) as [m|e]; cbn [to_option];
    [|now rewrite app_nil_r].
  destruct (score m teX teL) as [l|e]; cbn [to_option folds_done];
    [reflexivity | now rewrite app_nil_r].
Qed.

Lemma cv_folds_spec (n : Z) (folds : list (list nat * list nat)) (st : cv_locals) :
  fold_left (cv_fold self n) folds st
  = {| logsL := logsL st ++ fold_samples self n folds;
       model := last_fit self n folds (model st);
       folds_done := folds_done st ++ folds |}.
Proof.
  revert st. induction folds as [|f folds IH]; intros st.
  - cbn. rewrite !app_nil_r. now destruct st.
  - cbn [fold_left]. rewrite IH, cv_fold_spec. cbn [logsL model folds_done].
    unfold fold_samples, last_fit. cbn [flat_map fold_left].
    now rewrite <- !app_assoc.
Qed.

Lemma fold_sample_fit (n : Z) (f : list nat * list nat) (l : Q) :
  fold_sample self n f = Some l -> exists m, fold_fit self n f = Some m.
Proof.
  unfold fold_sample, fold_fit.
  destruct (combine_sequences (fst f) (sequences self)) as [[trX trL]|e]; [|discriminate].
  destruct (combine_sequences (snd f) (sequences self)) as [[teX teL]|e]; [|discriminate].
  destruct (fit n (random_state self) trX trL) as [m|e]; [|discriminate].
  intros _. now exists m.
Qed.

(** The value of [model] after the folds: the model of the last fold
    whose fit returned, or the value on entry when none did. *)
Lemma last_fit_cases (n : Z) (folds : list (list nat * list nat)) (model0 : option (option hmm)) :
  (last_fit self n folds model0 = model0 /\ Forall (fun f => fold_fit self n f = None) folds)
  \/ (exists pre f post m,
        folds = pre ++ f :: post /\ fold_fit self n f = Some m /\
        Forall (fun f' => fold_fit self n f' = None) post /\
        last_fit self n folds model0 = Some (Some m)).
Proof.
  induction folds as [|f folds IH] using rev_ind.
  - left. split; [reflexivity | constructor].
  - unfold last_fit in *. rewrite fold_left_app. cbn [fold_left].
    destruct (fold_fit self n f) as [m|] eqn:Ef.
    + right. exists folds, f, [], m. repeat split; [exact Ef | constructor].
    + destruct IH as [[E Hall] | (pre & f' & post & m & -> & Ef' & Hpost & E)].
      * left. split; [exact E|]. apply Forall_app. split; [exact Hall|].
        constructor; [exact Ef | constructor].
      * right. exists pre, f', (post ++ [f]), m. rewrite <- app_assoc. cbn [app].
        repeat split; [exact Ef' | | exact E].
        apply Forall_app. split; [exact Hpost|]. constructor; [exact Ef | constructor].
Qed.

Lemma fold_samples_fit (n : Z) (folds : list (list nat * list nat)) :
  fold_samples self n folds <> [] ->
  exists f m, In f folds /\ fold_fit self n f = Some m.
Proof.
  induction folds as [|f folds IH]; cbn; intros Hne; [congruence|].
  destruct (fold_sample self n f) as [l|] eqn:Es.
  - destruct (fold_sample_fit _ _ _ Es) as (m & Em). exists f, m. split; [now left | exact Em].
  - cbn in Hne. destruct (IH Hne) as (f' & m & Hin & Em). exists f', m. split; [now right | exact Em].
Qed.

Lemma last_fit_indep (n : Z) (folds : list (list nat * list nat))
    (a b : option (option hmm)) :
  (exists f m, In f folds /\ fold_fit self n f = Some m) ->
  last_fit self n folds a = last_fit self n folds b.
Proof.
  unfold last_fit. revert a b. induction folds as [|f folds IH]; intros a b (f0 & m & Hin & Em).
  - contradiction.
  - cbn [fold_left]. destruct (fold_fit self n f) as [m'|] eqn:Ef; [reflexivity|].
    apply IH. destruct Hin as [-> | Hin]; [congruence|]. now exists f0, m.
Qed.

(** With two or more sequences, the sampling of a candidate goes through
    the folds of [KFold(min(len, 3))]. *)
Lemma cv_samples_folds (n : Z) (model0 : option (option hmm)) :
  (2 <= length (sequences self))%nat ->
  exists folds,
    KFold_split (Nat.min (length (sequences self)) 3) (length (sequences self)) = Ok folds /\
    cv_samples self n model0
    = Ok {| logsL := fold_samples self n folds;
            model := last_fit self n folds model0;
            folds_done := folds |}.
Proof.
  intros Hlen. unfold cv_samples, KFold.
  destruct (Nat.eqb_spec (length (sequences self)) 1); [lia|].
  destruct (Nat.ltb_spec (Nat.min (length (sequences self)) 3) 2); [lia|]. cbn [bind].
  destruct (KFold_split_spec (Nat.min (length (sequences self)) 3) (length (sequences self)))
    as (folds & E & _); [lia | lia |].
  exists folds. split; [exact E|]. rewrite E. cbn [bind]. now rewrite cv_folds_spec.
Qed.

(** The sampling of a candidate, seen from the running-best test: it
    never raises on a word with a sequence, and what it leaves in
    [logsL] and [model] agrees with [cv_cand] whatever [model] held on
    entry. *)
Lemma cv_samples_cand (n : Z) (model0 : option (option hmm)) :
  sequences self <> [] ->
  exists s,
    cv_samples self n model0 = Ok s /\
    match logsL s with
    | [] => cv_cand self n = None
    | _ :: _ => exists mo, model s = Some mo /\ cv_cand self n = Some (mean (logsL s), mo)
    end.
Proof.
  intros Hne. destruct (Nat.eq_dec (length (sequences self)) 1) as [Hone | Hmany].
  - unfold cv_cand, cv_samples. rewrite Hone. cbn [Nat.eqb].
    destruct (score_of (base_model self n) (X self) (lengths self)) as [l|e];
      eexists; (split; [reflexivity|]); cbn [logsL model]; eauto.
  - assert (Hlen : (2 <= length (sequences self))%nat).
    { destruct (sequences self) as [|? [|? ?]]; cbn in *; try congruence; lia. }
    destruct (cv_samples_folds n model0 Hlen) as (folds & Ef & E).
    destruct (cv_samples_folds n None Hlen) as (folds' & Ef' & E').
    assert (folds' = folds) by congruence. subst folds'.
    eexists. split; [exact E|]. unfold cv_cand. rewrite E'. cbn [logsL model].
    destruct (fold_samples self n folds) as [|l ls] eqn:Es; [reflexivity|].
    assert (Hsome : fold_samples self n folds <> []) by (rewrite Es; discriminate).
    destruct (fold_samples_fit n folds Hsome) as (f & m & Hin & Em).
    rewrite (last_fit_indep n folds model0 None) by now exists f, m.
    destruct (last_fit_cases n folds None) as [[_ Hall] | (pre' & f2 & post' & m2 & _ & _ & _ & E2)].
    { rewrite Forall_forall in Hall. rewrite (Hall f Hin) in Em. discriminate. }
    rewrite E2. exists (Some m2). split; reflexivity.
Qed.
End CVProofs.

Section CVSelectProofs.
Context {hmm : Type} `{ModelTrainer hmm}.
Variable self : ModelSelector.
Hypothesis has_sequence : sequences self <> [].

Lemma SelectorCV_step_spec (st : pyfloat * option hmm) (model0 : option (option hmm)) (n : Z) :
  exists model1,
    SelectorCV_step self (st, model0) n = Ok (keep_best fgt st (cv_cand self n), model1).
Proof.
  destruct st as [select_avg_logL select_model]. unfold SelectorCV_step.
  destruct (cv_samples_cand self n model0 has_sequence) as (s & Es & Hs).
  rewrite Es. cbn [bind]. exists (model s).
  destruct (logsL s) as [|l ls].
  - rewrite Hs. reflexivity.
  - destruct Hs as (mo & Emo & Ec). rewrite Ec, Emo. cbn [keep_best fst read_local].
    destruct (fgt (Real (mean (l :: ls))) select_avg_logL); reflexivity.
Qed.

Lemma SelectorCV_fold (l : list Z) (st : pyfloat * option hmm) (model0 : option (option hmm)) :
  exists model1,
    for_each (SelectorCV_step self) l (st, model0)
    = Ok (scan fgt (map (cv_cand self) l) st, model1).
Proof.
  unfold scan. revert st model0. induction l as [|n l IH]; intros st model0.
  - exists model0. reflexivity.
  - cbn [for_each map fold_left].
    destruct (SelectorCV_step_spec st model0 n) as (model1 & E). rewrite E. cbn [bind].
    apply IH.
Qed.

Lemma SelectorCV_select_scan :
  SelectorCV_select self
  = Ok (snd (scan fgt (map (cv_cand self) (candidates self)) (NegInf, None))).
Proof.
  unfold SelectorCV_select.
  destruct (SelectorCV_fold (candidates self) (NegInf, None) None) as (model1 & E).
  rewrite E. cbn [bind].
  now destruct (scan fgt (map (cv_cand self) (candidates self)) (NegInf, None)).
Qed.
End CVSelectProofs.

Section CVFoldProofs.
Context {hmm : Type} `{ModelTrainer hmm}.
Variable self : ModelSelector.
Variable folds : list (list nat * list nat).
Hypothesis many : (2 <= length (sequences self))%nat.
Hypothesis split_folds :
  KFold_split (Nat.min (length (sequences self)) 3) (length (sequences self)) = Ok folds.



End CVFoldProofs.




(** C5 (as amended). With exactly one sequence the sampling of a
    candidate goes through no fold and leaves exactly one sample when the
    fit and the scoring on the word's full observations succeed, and none
    when either fails.  With two or more sequences it goes through
    exactly min(3, len) folds, the folds of a non-shuffled KFold: the
    held-out blocks, in order, make up 0 .. len-1, every sequence is held
    out in exactly one fold, and each fold trains on the others. *)
Theorem SelectorCV_sampling {hmm : Type} `{ModelTrainer hmm}
    (self : ModelSelector) (n : Z) (model0 : option (option hmm)) :
  (length (sequences self) = 1%nat ->
   exists s,
     cv_samples self n model0 = Ok s /\ folds_done s = [] /\
     (forall m l, fits_and_scores self n m l -> logsL s = [l]) /\
     ((forall m l, ~ fits_and_scores self n m l) -> logsL s = []))
  /\
  ((2 <= length (sequences self))%nat ->
   exists s,
     cv_samples self n model0 = Ok s /\
     length (folds_done s) = Nat.min 3 (length (sequences self)) /\
     concat (map snd (folds_done s)) = seq 0 (length (sequences self)) /\
     (forall i, (i < length (sequences self))%nat ->
                length (filter (fun f => mem i (snd f)) (folds_done s)) = 1%nat) /\
     Forall (fun f => fst f = filter (fun i => negb (mem i (snd f)))
                                     (seq 0 (length (sequences self))))
            (folds_done s) /\
     logsL s = fold_samples self n (folds_done s)).
Proof.
  split.
  - intros Hone. unfold cv_samples. rewrite Hone. cbn [Nat.eqb].
    unfold base_model, fits_and_scores.
    destruct (fit n (random_state self) (X self) (lengths self)) as [m|e] eqn:Ef; cbn [score_of].
    + destruct (score m (X self) (lengths self)) as [l|e] eqn:Es;
        eexists; (split; [reflexivity|]); cbn [logsL folds_done]; (split; [reflexivity|]); split.
      * intros m' l' [[= <-] Hs]. congruence.
      * intros Hno. exfalso. apply (Hno m l). now split.
      * intros m' l' [[= <-] Hs]. congruence.
      * reflexivity.
    + eexists. split; [reflexivity|]. cbn [logsL folds_done]. split; [reflexivity|]. split.
      * intros m' l' [[=] _].
      * reflexivity.
  - intros Hmany.
    destruct (cv_samples_folds self n model0 Hmany) as (folds & Ef & E).
    destruct (KFold_split_spec (Nat.min (length (sequences self)) 3) (length (sequences self)))
      as (folds' & Ef' & Hlen & Hconcat & Hone & Hshape); [lia | lia |].
    assert (folds' = folds) by congruence. subst folds'.
    eexists. split; [exact E|]. cbn [logsL folds_done].
    split; [rewrite Hlen; apply Nat.min_comm|]. split; [exact Hconcat|].
    split; [exact Hone|]. split; [|reflexivity].
    eapply Forall_impl; [|exact Hshape]. cbv beta. intros f Hf. apply Hf.
Qed.

Lemma SelectorCV_sampling_witness :
  (length (sequences self_C) = 1%nat /\
   exists s, cv_samples (H := toy_trainer fit_ex) self_C 3 None = Ok s /\ folds_done s = []) /\
  ((2 <= length (sequences self_A))%nat /\
   exists s, cv_samples (H := toy_trainer fit_ex) self_A 3 None = Ok s /\
             length (folds_done s) = 3%nat).
Proof.
  split.
  - split; [reflexivity|].
    destruct (proj1 (SelectorCV_sampling (H := toy_trainer fit_ex) self_C 3 None) eq_refl)
      as (s & Es & Hf & _).
    exists s. split; [exact Es | exact Hf].
  - split; [cbn; lia|].
    destruct (proj2 (SelectorCV_sampling (H := toy_trainer fit_ex) self_A 3 None)
                ltac:(cbn; lia))
      as (s & Es & Hl & _).
    exists s. split; [exact Es | exact Hl].
Defined.

(** C5 (counterexample). Word C has exactly one sequence and 4 is a
    candidate of its search, but the fit for four states fails: the
    candidate leaves no sample, not exactly one. *)
Lemma SelectorCV_one_sequence_no_sample :
  length (sequences self_C) = 1%nat /\
  In 4 (candidates self_C) /\
  cv_samples (H := toy_trainer fit_ex) self_C 4 None
  = Ok {| logsL := []; model := Some None; folds_done := [] |} /\
  ~ (exists s, cv_samples (H := toy_trainer fit_ex) self_C 4 None = Ok s
               /\ length (logsL s) = 1%nat).
Proof.
  split; [reflexivity|]. split; [vm_compute; tauto|]. split; [vm_compute; reflexivity|].
  intros (s & Es & Hl). vm_compute in Es. injection Es as <-. discriminate.
Qed.

(** ** A successful candidate yields a model of the range *)



Section InRange.
Context {hmm : Type} `{ModelTrainer hmm}.
Variable ln : Z -> Q.
Variable self : ModelSelector.
(** The trainer returns a model with the state count it was asked for. *)
Hypothesis fit_n_components :
  forall n rs Xs ls m, fit n rs Xs ls = Ok m -> n_components m = n.


End InRange.



(** ** The selectors recover every failure of a fit or a score *)

(** No [select] raises, whatever the trainer does, on a word that has a
    sequence (every word of a corpus has one). *)
Lemma selectors_return {hmm : Type} `{ModelTrainer hmm} (ln : Z -> Q) (self : ModelSelector) :
  (exists r, SelectorConstant_select self = Ok r) /\
  (exists r, SelectorBIC_select ln self = Ok r) /\
  (exists r, SelectorDIC_select self = Ok r) /\
  (sequences self <> [] -> exists r, SelectorCV_select self = Ok r).
Proof.
  split; [|split; [|split]].
  - eexists. reflexivity.
  - unfold SelectorBIC_select.
    destruct (fold_left (SelectorBIC_step ln self) (candidates self) (PosInf, None)).
    eexists. reflexivity.
  - unfold SelectorDIC_select.
    destruct (fold_left (SelectorDIC_step self) (candidates self) (NegInf, None)).
    eexists. reflexivity.
  - intros Hne. rewrite (SelectorCV_select_scan self Hne). eexists. reflexivity.
Qed.

(** Without any sequence the cross-validation search stops at
    [KFold(n_splits=0)], outside every [try]. *)
Lemma SelectorCV_select_no_sequence {hmm : Type} `{ModelTrainer hmm} (self : ModelSelector) :
  sequences self = [] -> candidates self <> [] ->
  SelectorCV_select self = Raise ValueError.
Proof.
  intros Hnone Hcands. unfold SelectorCV_select.
  destruct (candidates self) as [|n l]; [congruence|].
  cbn [for_each]. unfold SelectorCV_step at 1, cv_samples. rewrite Hnone. reflexivity.
Qed.

(** ** The theorems at the example corpus *)



Lemma SelectorDIC_select_single_word_witness :
  dict_keys (hwords self_C_alone) = [this_word self_C_alone] /\
  SelectorDIC_select (H := toy_trainer fit_ex) self_C_alone = Ok None.
Proof.
  split; [reflexivity|].
  apply (SelectorDIC_select_single_word (H := toy_trainer fit_ex) self_C_alone). reflexivity.
Defined.


(** Cross-validation over word A returns the three-state model of the
    last fold, fitted on the first two sequences, where the fit on the
    word's full observations is another model; when the fit of the last
    fold fails it returns the model of the fold before. *)
Example SelectorCV_select_at_corpus :
  SelectorCV_select (H := toy_trainer fit_ex) self_A = Ok (Some (toy_model 3 [5; 6])) /\
  base_model (H := toy_trainer fit_ex) self_A 3 = Some (toy_model 3 [5; 6; 4]) /\
  SelectorCV_select (H := toy_trainer fit_ex_last_fails) self_A
  = Ok (Some (toy_model 3 [5; 4])).
Proof. repeat split; vm_compute; reflexivity. Qed.

(** The example of the specification: BIC on word A picks three states,
    and the recognizer guesses the word whose model scores higher. *)
Example SelectorBIC_select_at_corpus :
  option_map toy_n
    (match SelectorBIC_select (H := toy_trainer fit_ex) ln_ex self_A with
     | Ok r => r
     | Raise _ => None
     end) = Some 3.
Proof. vm_compute. reflexivity. Qed.

(** * Further properties of the code *)

(** ** recognize *)

Section RecognizeMore.
Context {hmm : Type} `{ModelTrainer hmm}.

(** A sequence whose first pair scores is processed the same way
    whatever [logL] held on entry: the first iteration overwrites it. *)
Lemma recognize_sequence_first_ok (models : dict hmm) (Xl : Xlengths) :
  first_scores models Xl ->
  exists st,
    logL st <> None /\ forall logL0, recognize_sequence models logL0 Xl = Ok st.
Proof.
  intros (w & m & l & rest & -> & Hscore).
  destruct (recognize_pairs_bound Xl rest
              {| probability := [(w, Real l)]; select_logL := Real l;
                 guess := Some w; logL := Some l |}) as (st & E & Hl);
    [discriminate|].
  exists st. split; [exact Hl|]. intros logL0.
  unfold recognize_sequence, dict_items. cbn [for_each].
  unfold recognize_pair at 1. rewrite Hscore.
  cbn [logL select_logL probability guess read_local bind dict_set fgt flt]. exact E.
Qed.

Lemma recognize_single (models : dict hmm) (Xl : Xlengths) :
  recognize models [Xl]
  = (st <- recognize_sequence models None Xl ;; Ok ([probability st], [guess st])).
Proof.
  unfold recognize. cbn [for_each]. unfold recognize_outer.
  destruct (recognize_sequence models None Xl); reflexivity.
Qed.

Lemma recognize_outer_independent (models : dict hmm) (tests : list Xlengths) :
  (forall Xl, In Xl tests -> first_scores models Xl) ->
  forall ps gs l0,
  exists sts l',
    for_each (recognize_outer models) tests (ps, gs, l0)
    = Ok (ps ++ map probability sts, gs ++ map guess sts, l') /\
    Forall2 (fun Xl st => recognize_sequence models None Xl = Ok st) tests sts.
Proof.
  induction tests as [|Xl tests IH]; intros Hall ps gs l0.
  - exists [], l0. cbn. rewrite !app_nil_r. split; [reflexivity | constructor].
  - destruct (recognize_sequence_first_ok models Xl (Hall Xl (or_introl eq_refl)))
      as (st & _ & Est).
    destruct (IH (fun Xl' HX => Hall Xl' (or_intror HX))
                 (ps ++ [probability st]) (gs ++ [guess st]) (logL st))
      as (sts & l' & E & Hsts).
    exists (st :: sts), l'. cbn [for_each]. unfold recognize_outer at 1.
    rewrite (Est l0). cbn [bind]. rewrite E, <- !app_assoc. cbn [app map].
    split; [reflexivity|]. constructor; [apply Est | exact Hsts].
Qed.




End RecognizeMore.

(** X1. Whenever [recognize] returns, its first list holds one row per
    test sequence, in corpus order; a row holds one entry per model, in
    the iteration order of the mapping, which is the score of the model
    on the sequence or [-inf] where that score raised; and there is one
    guess per test sequence. *)
Theorem recognize_returns_rows {hmm : Type} `{ModelTrainer hmm}
    (models : dict hmm) (tests : list Xlengths)
    (probs : list (dict pyfloat)) (guesses : list (option string)) :
  NoDup (dict_keys models) ->
  recognize models tests = Ok (probs, guesses) ->
  probs = map (row_of models) tests /\
  length guesses = length tests /\
  Forall (fun row => dict_keys row = dict_keys models) probs.
Proof.
  intros Hnd E. destruct (recognize_rows models tests probs guesses Hnd E) as (-> & Hlen & _).
  split; [reflexivity|]. split; [exact Hlen|].
  apply Forall_forall. intros row Hrow. apply in_map_iff in Hrow.
  destruct Hrow as (Xl & <- & _). apply row_of_keys.
Qed.

Lemma recognize_returns_rows_witness :
  NoDup (dict_keys models_AB) /\
  [[("A"%string, Real (-5 # 1)); ("B"%string, Real (-3 # 1))];
   [("A"%string, NegInf); ("B"%string, Real (-10 # 1))]]
  = map (row_of (H := toy_trainer no_fit) models_AB) [seq_1; seq_2].
Proof.
  assert (Hnd : NoDup (dict_keys models_AB)).
  { repeat constructor; cbn; intuition discriminate. }
  split; [exact Hnd|].
  apply (recognize_returns_rows (H := toy_trainer no_fit) models_AB [seq_1; seq_2]
           _ [Some "B"%string; Some "A"%string] Hnd).
  vm_compute. reflexivity.
Defined.

(** X2. With an empty model mapping [recognize] never raises: every row
    is empty and every guess is none. *)
Theorem recognize_empty_mapping {hmm : Type} `{ModelTrainer hmm} (tests : list Xlengths) :
  recognize (@nil (string * hmm)) tests
  = Ok (map (fun _ => []) tests, map (fun _ => None) tests).
Proof. apply recognize_no_models. Qed.

(** X3. [recognize] returns exactly when the mapping is empty, the corpus
    is empty, or the first model of the mapping scores the first test
    sequence; otherwise it raises, and what it raises is the
    UnboundLocalError of reading [logL] before any score succeeded. *)
Theorem recognize_returns_or_raises {hmm : Type} `{ModelTrainer hmm}
    (models : dict hmm) (tests : list Xlengths) :
  match recognize models tests with
  | Ok _ =>
      models = [] \/ tests = [] \/
      exists Xl more, tests = Xl :: more /\ first_scores models Xl
  | Raise e =>
      e = UnboundLocalError /\
      exists w m rest Xl more e',
        models = (w, m) :: rest /\ tests = Xl :: more /\
        score m (fst Xl) (snd Xl) = Raise e'
  end.
Proof.
  destruct models as [|[w m] rest].
  - rewrite recognize_no_models. now left.
  - destruct tests as [|Xl more]; [cbn; auto|].
    destruct (score m (fst Xl) (snd Xl)) as [l|e'] eqn:Es.
    + assert (Hfirst : first_scores ((w, m) :: rest) Xl) by now exists w, m, l, rest.
      destruct (recognize_sequence_first_ok _ _ Hfirst) as (st & Hl & Est).
      unfold recognize. cbn [for_each]. unfold recognize_outer at 1.
      rewrite (Est None). cbn [bind].
      destruct (recognize_outer_bound ((w, m) :: rest) more
                  ([] ++ [probability st]) ([] ++ [guess st]) (logL st) Hl)
        as (ps' & gs' & l' & E).
      rewrite E. cbn [bind]. right. right. now exists Xl, more.
    + rewrite (recognize_first_failure w m rest Xl more e' Es).
      split; [reflexivity|]. now exists w, m, rest, Xl, more, e'.
Qed.



(** X5. When the first model of the mapping scores every test sequence,
    [recognize] returns and treats the sequences independently: the row
    and the guess of each sequence are those [recognize] gives for that
    sequence alone. *)
Theorem recognize_sequences_independent {hmm : Type} `{ModelTrainer hmm}
    (models : dict hmm) (tests : list Xlengths) :
  (forall Xl, In Xl tests -> first_scores models Xl) ->
  exists probs guesses,
    recognize models tests = Ok (probs, guesses) /\
    length probs = length tests /\
    forall t Xl, nth_error tests t = Some Xl ->
      exists row g,
        nth_error probs t = Some row /\ nth_error guesses t = Some g /\
        recognize models [Xl] = Ok ([row], [g]).
Proof.
  intros Hall.
  destruct (recognize_outer_independent models tests Hall [] [] None) as (sts & l' & E & Hsts).
  exists (map probability sts), (map guess sts).
  split; [unfold recognize; rewrite E; reflexivity|]. split.
  - rewrite length_map. symmetry. eapply Forall2_length; exact Hsts.
  - clear E. induction Hsts as [|Xl0 st tests sts Hst _ IH]; intros t Xl Ht.
    + destruct t; discriminate.
    + destruct t as [|t]; cbn [nth_error map] in *.
      * injection Ht as <-. exists (probability st), (guess st).
        split; [reflexivity|]. split; [reflexivity|].
        rewrite recognize_single, Hst. reflexivity.
      * apply IH; [|exact Ht]. intros Xl' HX. apply Hall. now right.
Qed.

Lemma recognize_sequences_independent_witness :
  exists probs guesses,
    recognize (H := toy_trainer no_fit) models_BAC [seq_2; seq_1] = Ok (probs, guesses) /\
    length probs = 2%nat.
Proof.
  destruct (recognize_sequences_independent (H := toy_trainer no_fit)
              models_BAC [seq_2; seq_1]) as (probs & guesses & E & Hlen & _).
  - intros Xl [<- | [<- | []]]; eexists _, _, _, _; (split; [reflexivity|]);
      vm_compute; reflexivity.
  - exists probs, guesses. split; [exact E | exact Hlen].
Defined.



(** ** ModelSelector.__init__ *)

Lemma dict_get_Raise {V} (d : dict V) (k : string) (e : exn) :
  dict_get d k = Raise e -> e = KeyError /\ ~ In k (dict_keys d).
Proof.
  induction d as [|[k' v] d IH]; cbn.
  - intros [= <-]. split; [reflexivity | tauto].
  - destruct (String.eqb k k') eqn:E; [discriminate|]. intros Hget.
    destruct (IH Hget) as [-> Hnot]. split; [reflexivity|].
    intros [-> | Hin]; [|tauto]. rewrite String.eqb_refl in E. discriminate.
Qed.

(** X7. The constructor succeeds exactly when the word is a key of both
    mappings, and then takes the word's sequences, observations and
    lengths from them and keeps both mappings whole; when the word is
    missing from either it raises KeyError. *)
Theorem ModelSelector_init_spec
    (all_word_sequences : dict (list sequence)) (all_word_Xlengths : dict Xlengths)
    (word : string) (n_constant min_n max_n random_state : Z) (verbose : bool) :
  match ModelSelector_init all_word_sequences all_word_Xlengths word n_constant
                           min_n max_n random_state verbose with
  | Ok self =>
      dict_get all_word_sequences word = Ok (sequences self) /\
      dict_get all_word_Xlengths word = Ok (X self, lengths self) /\
      words self = all_word_sequences /\ hwords self = all_word_Xlengths /\
      this_word self = word /\
      In word (dict_keys all_word_sequences) /\ In word (dict_keys all_word_Xlengths)
  | Raise e =>
      e = KeyError /\
      (~ In word (dict_keys all_word_sequences) \/ ~ In word (dict_keys all_word_Xlengths))
  end.
Proof.
  unfold ModelSelector_init.
  destruct (dict_get all_word_sequences word) as [seqs|e] eqn:Es; cbn [bind].
  - destruct (dict_get all_word_Xlengths word) as [[X0 l0]|e] eqn:Ex; cbn [bind].
    + cbn. repeat split; try reflexivity; eapply dict_get_Ok_In; eassumption.
    + destruct (dict_get_Raise _ _ _ Ex) as [-> Hnot]. split; [reflexivity | now right].
  - destruct (dict_get_Raise _ _ _ Es) as [-> Hnot]. split; [reflexivity | now left].
Qed.

(** ** Edge cases of the searches *)

Lemma range_nil (a b : Z) : b <= a -> range a b = [].
Proof. intros Hba. unfold range. replace (Z.to_nat (b - a)) with 0%nat by lia. reflexivity. Qed.

Lemma range_not_nil (a b : Z) : a < b -> range a b <> [].
Proof.
  intros Hab E. assert (Hin : In a (range a b)) by (apply range_In; lia).
  rewrite E in Hin. exact Hin.
Qed.

(** X8. With an empty candidate range ([max_n_components] below
    [min_n_components]) the three searches return none without fitting
    anything and without raising, CrossValidation also for a word without
    sequences. *)
Theorem select_empty_range {hmm : Type} `{ModelTrainer hmm} (ln : Z -> Q)
    (self : ModelSelector) :
  max_n_components self < min_n_components self ->
  SelectorBIC_select ln self = Ok None /\
  SelectorDIC_select self = Ok None /\
  SelectorCV_select self = Ok None.
Proof.
  intros Hempty.
  unfold SelectorBIC_select, SelectorDIC_select, SelectorCV_select, candidates.
  rewrite range_nil by lia. repeat split.
Qed.

Lemma select_empty_range_witness :
  SelectorBIC_select (H := toy_trainer fit_ex) ln_ex (self_A_range 5 2) = Ok None /\
  SelectorDIC_select (H := toy_trainer fit_ex) (self_A_range 5 2) = Ok None /\
  SelectorCV_select (H := toy_trainer fit_ex) (self_A_range 5 2) = Ok None.
Proof.
  apply (select_empty_range (H := toy_trainer fit_ex) ln_ex (self_A_range 5 2)).
  cbn. lia.
Defined.

(** X9. For a word whose lengths sum to zero or less (no observed frame)
    [SelectorBIC.select] returns none whatever the trainer does: for every
    candidate the [try] block ends in the ValueError of [math.log]. *)
Theorem SelectorBIC_select_no_frames {hmm : Type} `{ModelTrainer hmm} (ln : Z -> Q)
    (self : ModelSelector) :
  sum (lengths self) <= 0 ->
  SelectorBIC_select ln self = Ok None.
Proof.
  intros Hzero. unfold SelectorBIC_select.
  assert (Hstep : forall n st, SelectorBIC_step ln self st n = st).
  { intros n st. unfold SelectorBIC_step, bic_candidate, math_log.
    destruct (score_of (base_model self n) (X self) (lengths self)); cbn [bind try_continue];
      [|reflexivity].
    destruct (n_features_of (base_model self n)); cbn [bind try_continue]; [|reflexivity].
    destruct (Z.leb_spec (sum (lengths self)) 0); [reflexivity | lia]. }
  assert (Hfold : forall l st, fold_left (SelectorBIC_step ln self) l st = st).
  { induction l as [|n l IH]; intros st; cbn [fold_left]; [reflexivity|].
    now rewrite Hstep. }
  rewrite Hfold. reflexivity.
Qed.

Lemma SelectorBIC_select_no_frames_witness :
  sum (lengths self_D) <= 0 /\
  fit (ModelTrainer := toy_trainer fit_any) 2 14 (X self_D) (lengths self_D)
  = Ok {| toy_n := 2; toy_d := 1; toy_data := []; toy_table := [([], (-1 # 1)%Q)] |} /\
  SelectorBIC_select (H := toy_trainer fit_any) ln_ex self_D = Ok None.
Proof.
  split; [vm_compute; discriminate|]. split; [reflexivity|].
  apply (SelectorBIC_select_no_frames (H := toy_trainer fit_any) ln_ex self_D).
  vm_compute. discriminate.
Defined.

(** X10. [SelectorCV.select] raises exactly when the word has no
    sequence and the candidate range is not empty, and what it raises is
    the ValueError of [KFold(n_splits=0)]; in every other case it
    returns, whatever fits and scores fail. *)
Theorem SelectorCV_select_returns_or_raises {hmm : Type} `{ModelTrainer hmm}
    (self : ModelSelector) :
  match SelectorCV_select self with
  | Ok _ => sequences self <> [] \/ max_n_components self < min_n_components self
  | Raise e =>
      e = ValueError /\ sequences self = [] /\
      min_n_components self <= max_n_components self
  end.
Proof.
  destruct (sequences self) as [|s0 ss] eqn:Eseq.
  - destruct (Z_lt_dec (max_n_components self) (min_n_components self)) as [Hlt | Hge].
    + unfold SelectorCV_select, candidates. rewrite range_nil by lia. cbn. now right.
    + rewrite (SelectorCV_select_no_sequence self Eseq).
      * repeat split. lia.
      * unfold candidates. apply range_not_nil. lia.
  - assert (Hne : sequences self <> []) by (rewrite Eseq; discriminate).
    rewrite (SelectorCV_select_scan self Hne). left. discriminate.
Qed.

(** ** Cross-validation on a single sequence *)





(** ** The data of a fold *)

Lemma test_folds_blocks (sizes : list nat) (current : nat) (t : list nat) :
  In t (test_folds sizes current) -> exists c s, t = seq c s /\ In s sizes.
Proof.
  revert current. induction sizes as [|s0 sizes IH]; intros current; cbn; [contradiction|].
  intros [<- | Hin].
  - exists current, s0. split; [reflexivity | now left].
  - destruct (IH _ Hin) as (c & s & -> & Hs). exists c, s. split; [reflexivity | now right].
Qed.

Lemma size_below_total (sizes : list nat) (s : nat) :
  Forall (fun x => (1 <= x)%nat) sizes -> (2 <= length sizes)%nat -> In s sizes ->
  (s < list_sum sizes)%nat.
Proof.
  intros Hpos Hlen Hin. apply in_split in Hin. destruct Hin as (l1 & l2 & ->).
  rewrite list_sum_app. cbn [list_sum fold_right]. fold (list_sum l2).
  rewrite length_app in Hlen. cbn [length] in Hlen.
  apply Forall_app in Hpos. destruct Hpos as [H1 H2]. inversion H2 as [|? ? _ H2']; subst.
  destruct l1 as [|a l1].
  - destruct l2 as [|b l2]; [cbn in Hlen; lia|].
    inversion H2' as [|? ? Hb _]; subst. cbn [list_sum fold_right]. lia.
  - inversion H1 as [|? ? Ha _]; subst. cbn [list_sum fold_right]. lia.
Qed.

Lemma length_filter_complement (t : list nat) (n : nat) :
  NoDup t -> incl t (seq 0 n) ->
  (length (filter (fun i => negb (mem i t)) (seq 0 n)) + length t = n)%nat.
Proof.
  intros Hnd Hincl.
  pose proof (filter_length (fun i => mem i t) (seq 0 n)) as Hsplit.
  rewrite length_seq in Hsplit.
  assert (Hsame : length (filter (fun i => mem i t) (seq 0 n)) = length t).
  { apply Nat.le_antisymm.
    - apply NoDup_incl_length; [apply NoDup_filter, seq_NoDup|].
      intros i Hi. apply filter_In in Hi. now apply mem_In.
    - apply NoDup_incl_length; [exact Hnd|].
      intros i Hi. apply filter_In. split; [now apply Hincl | now apply mem_In]. }
  lia.
Qed.

Lemma sum_from (l : list Z) (a : Z) : fold_left Z.add l a = a + sum l.
Proof.
  unfold sum. revert a. induction l as [|x l IH]; intros a; cbn [fold_left]; [lia|].
  rewrite (IH (a + x)), (IH (0 + x)). lia.
Qed.

Lemma sum_lengths (seqs : list sequence) :
  sum (map (fun s => Z.of_nat (length s)) seqs) = Z.of_nat (length (concat seqs)).
Proof.
  induction seqs as [|s seqs IH]; [reflexivity|].
  cbn [map concat]. rewrite length_app. unfold sum in *. cbn [fold_left].
  rewrite sum_from. unfold sum. rewrite IH. lia.
Qed.

(** Positions inside the list give data that keep the corpus invariant:
    one length per position, and lengths that add up to the number of
    stacked frames. *)
Lemma combine_sequences_Ok (idx : list nat) (seqs : list sequence) :
  (forall i, In i idx -> (i < length seqs)%nat) ->
  exists Xs ls,
    combine_sequences idx seqs = Ok (Xs, ls) /\
    length ls = length idx /\ sum ls = Z.of_nat (length Xs).
Proof.
  intros Hin.
  assert (Hmap : exists sf,
             map_res (fun i => match nth_error seqs i with
                               | Some s => Ok s
                               | None => Raise IndexError
                               end) idx = Ok sf /\ length sf = length idx).
  { induction idx as [|i idx IH]; [now exists []|].
    destruct IH as (sf & E & Hlen); [intros j Hj; apply Hin; now right|].
    destruct (nth_error seqs i) as [s|] eqn:En.
    - exists (s :: sf). cbn [map_res]. rewrite En, E. cbn. split; [reflexivity | now rewrite Hlen].
    - apply nth_error_None in En. specialize (Hin i (or_introl eq_refl)). lia. }
  destruct Hmap as (sf & E & Hlen).
  exists (concat sf), (map (fun s => Z.of_nat (length s)) sf).
  unfold combine_sequences. rewrite E. cbn [bind]. split; [reflexivity|].
  split; [now rewrite length_map | apply sum_lengths].
Qed.

(** X12. For a word with two or more sequences, in every fold of
    [SelectorCV.select] both calls of [combine_sequences] succeed: the
    training and the held-out data are both non-empty, their sequences
    together are the word's sequences, and each keeps the invariant
    sum(lengths) = number of frames.  So a fold is skipped only when its
    fit or its score raises: the model of the fold is what the fit on
    the training data returns. *)
Theorem SelectorCV_fold_data {hmm : Type} `{ModelTrainer hmm}
    (self : ModelSelector) (n : Z) :
  (2 <= length (sequences self))%nat ->
  exists folds,
    KFold_split (Nat.min (length (sequences self)) 3) (length (sequences self)) = Ok folds /\
    Forall (fun f =>
              exists training_X training_lengths test_X test_lengths,
                combine_sequences (fst f) (sequences self)
                = Ok (training_X, training_lengths) /\
                combine_sequences (snd f) (sequences self) = Ok (test_X, test_lengths) /\
                training_lengths <> [] /\ test_lengths <> [] /\
                (length training_lengths + length test_lengths
                 = length (sequences self))%nat /\
                sum training_lengths = Z.of_nat (length training_X) /\
                sum test_lengths = Z.of_nat (length test_X) /\
                fold_fit self n f
                = to_option (fit n (random_state self) training_X training_lengths))
           folds.
Proof.
  intros Hmany.
  set (k := Nat.min (length (sequences self)) 3).
  set (len := length (sequences self)).
  assert (Hk : (2 <= k)%nat) by (unfold k; lia).
  assert (Hkn : (k <= len)%nat) by (unfold k, len; lia).
  destruct (KFold_split_spec k len ltac:(lia) Hkn)
    as (folds & Efolds & _ & Hconcat & _ & Hshape).
  exists folds. split; [exact Efolds|].
  apply Forall_forall. intros [train test] Hf.
  rewrite Forall_forall in Hshape.
  destruct (Hshape _ Hf) as (Htrain & Hne & _). cbn [fst snd] in *.
  assert (Htests : In test (test_folds (fold_sizes k len) 0)).
  { unfold KFold_split in Efolds. destruct (len <? k)%nat; [discriminate|].
    injection Efolds as <-. apply in_map_iff in Hf.
    destruct Hf as (t & [= _ <-] & Ht). exact Ht. }
  destruct (test_folds_blocks _ _ _ Htests) as (c & s & -> & Hs).
  assert (Hincl : incl (seq c s) (seq 0 len)).
  { intros i Hi. rewrite <- Hconcat. apply in_concat. exists (seq c s). split; [|exact Hi].
    change (seq c s) with (snd (train, seq c s)). now apply in_map. }
  pose proof (length_filter_complement (seq c s) len (seq_NoDup s c) Hincl) as Hcount.
  rewrite <- Htrain in Hcount.
  assert (Hsize : (s < len)%nat).
  { pose proof (size_below_total (fold_sizes k len) s (fold_sizes_pos k len ltac:(lia) Hkn)) as Hlt.
    rewrite fold_sizes_length, fold_sizes_sum in Hlt by lia. now apply Hlt. }
  rewrite length_seq in Hcount.
  destruct (combine_sequences_Ok train (sequences self)) as (trX & trL & Etr & Hltr & Hstr).
  { intros i Hi. rewrite Htrain in Hi. apply filter_In in Hi. destruct Hi as [Hi _].
    apply in_seq in Hi. fold len. lia. }
  destruct (combine_sequences_Ok (seq c s) (sequences self)) as (teX & teL & Ete & Hlte & Hste).
  { intros i Hi. apply Hincl in Hi. apply in_seq in Hi. fold len. lia. }
  rewrite length_seq in Hlte.
  exists trX, trL, teX, teL. split; [exact Etr|]. split; [exact Ete|].
  split; [intros ->; cbn in Hltr; lia|].
  split; [intros ->; cbn in Hlte; destruct s; [now apply Hne | discriminate]|].
  split; [fold len; lia|]. split; [exact Hstr|]. split; [exact Hste|].
  unfold fold_fit. cbn [fst snd]. rewrite Etr, Ete. reflexivity.
Qed.

Lemma SelectorCV_fold_data_witness :
  (2 <= length (sequences self_A))%nat /\
  exists folds,
    KFold_split (Nat.min (length (sequences self_A)) 3) (length (sequences self_A)) = Ok folds /\
    length folds = 3%nat.
Proof.
  assert (Hmany : (2 <= length (sequences self_A))%nat) by (cbn; lia).
  split; [exact Hmany|].
  destruct (SelectorCV_fold_data (H := toy_trainer fit_ex) self_A 3 Hmany) as (folds & E & _).
  exists folds. split; [exact E|]. vm_compute in E. injection E as <-. reflexivity.
Defined.

(** ** The penalty of BIC *)

(** The winner of the BIC search and what it beats. *)
Lemma SelectorBIC_select_winner {hmm : Type} `{ModelTrainer hmm} (ln : Z -> Q)
    (self : ModelSelector) (m : hmm) :
  0 < sum (lengths self) ->
  SelectorBIC_select ln self = Ok (Some m) ->
  exists n logL,
    min_n_components self <= n <= max_n_components self /\
    fits_and_scores self n m logL /\
    forall n' m' logL',
      min_n_components self <= n' < n ->
      fits_and_scores self n' m' logL' ->
      ((- 2 # 1) * logL
       + inject_Z (n ^ 2 + 2 * n * n_features m - 1) * ln (sum (lengths self))
       < (- 2 # 1) * logL'
         + inject_Z (n' ^ 2 + 2 * n' * n_features m' - 1) * ln (sum (lengths self)))%Q.
Proof.
  intros Hpos. unfold SelectorBIC_select, candidates. rewrite SelectorBIC_fold.
  destruct (scan_min_spec (@None hmm)
              (map (bic_cand ln self)
                   (range (min_n_components self) (max_n_components self + 1))))
    as [[E _] | (v & mo & E & Hbest)]; rewrite E; [discriminate|].
  intros [= ->].
  apply (first_best_range Qlt Qlt_irrefl Qlt_trans) in Hbest.
  destruct Hbest as (n & Hn & En & Hmin). unfold bic_cand in En.
  destruct (bic_candidate ln self n) as [[v0 mo0]|e] eqn:Ec; [|discriminate].
  cbn in En. injection En as -> Em.
  destruct (bic_candidate_inv ln self _ _ _ Ec) as (m0 & logL & Hok & Em0 & Ev).
  assert (m0 = m) by congruence. subst m0.
  exists n, logL. split; [lia|]. split; [exact Hok|].
  intros n' m' logL' Hn' Hok'.
  pose proof (bic_candidate_Ok ln self n' m' logL' Hpos Hok') as Ec'.
  destruct (Hmin n' _ (Some m') ltac:(lia)
              ltac:(unfold bic_cand; rewrite Ec'; reflexivity)) as [_ Hfirst].
  rewrite <- Ev. apply Hfirst. lia.
Qed.

(** X13. The BIC search trades states for likelihood: when the logarithm
    of the frame count is positive, the model it returns has a strictly
    greater log-likelihood than every candidate with fewer (at least one)
    states that fits and scores on the same feature dimension.  A larger
    model is never returned on equal likelihood. *)
Theorem SelectorBIC_select_larger_needs_likelihood {hmm : Type} `{ModelTrainer hmm}
    (ln : Z -> Q) (self : ModelSelector) (m : hmm) :
  0 < sum (lengths self) ->
  (0 < ln (sum (lengths self)))%Q ->
  0 <= n_features m ->
  SelectorBIC_select ln self = Ok (Some m) ->
  exists n logL,
    min_n_components self <= n <= max_n_components self /\
    fits_and_scores self n m logL /\
    forall n' m' logL',
      min_n_components self <= n' < n -> 1 <= n' ->
      fits_and_scores self n' m' logL' ->
      n_features m' = n_features m ->
      (logL' < logL)%Q.
Proof.
  intros Hpos Hln Hd Hsel.
  destruct (SelectorBIC_select_winner ln self m Hpos Hsel) as (n & logL & Hn & Hok & Hbeats).
  exists n, logL. split; [exact Hn|]. split; [exact Hok|].
  intros n' m' logL' Hn' Hone Hok' Hdim.
  specialize (Hbeats n' m' logL' Hn' Hok'). rewrite Hdim in Hbeats.
  set (d := n_features m) in *.
  assert (Hp : n' ^ 2 + 2 * n' * d - 1 < n ^ 2 + 2 * n * d - 1).
  { rewrite !Z.pow_2_r. nia. }
  rewrite Zlt_Qlt in Hp.
  pose proof (Qmult_lt_compat_r _ _ _ Hln Hp) as Hpen.
  set (A := (inject_Z (n ^ 2 + 2 * n * d - 1) * ln (sum (lengths self)))%Q) in *.
  set (A' := (inject_Z (n' ^ 2 + 2 * n' * d - 1) * ln (sum (lengths self)))%Q) in *.
  lra.
Qed.

Lemma SelectorBIC_select_larger_needs_likelihood_witness :
  0 < sum (lengths self_A) /\
  (0 < ln_ex (sum (lengths self_A)))%Q /\
  exists n logL,
    2 <= n <= 5 /\
    fits_and_scores (H := toy_trainer fit_ex) self_A n (toy_model 3 [5; 6; 4]) logL.
Proof.
  assert (Hpos : 0 < sum (lengths self_A)) by (vm_compute; reflexivity).
  assert (Hln : (0 < ln_ex (sum (lengths self_A)))%Q) by (vm_compute; reflexivity).
  destruct (SelectorBIC_select_larger_needs_likelihood (H := toy_trainer fit_ex)
              ln_ex self_A (toy_model 3 [5; 6; 4]) Hpos Hln)
    as (n & logL & Hn & Hok & _).
  - cbn. lia.
  - vm_compute. reflexivity.
  - split; [exact Hpos|]. split; [exact Hln|]. exists n, logL. split; [exact Hn | exact Hok].
Defined.
